(** * fayec: the websocket transport of a Bayeux (Faye) client

    A shallow embedding of [transport/websocket/websocket.go]: the connection
    record, the send primitive, the lifecycle calls, the read-dispatch loop and
    the subscription consumer, followed by the properties checked of them.

    Conventions of the embedding.
    - A Go method with receiver [w *Websocket] is a computation over the
      receiver, [M A := Websocket -> Res A]; it either completes with a value
      and the updated receiver, panics, or blocks for ever.
    - What the socket answers is an argument of the call that asks for it: the
      result of [conn.WriteJSON] is [wr : option error], the result of
      [conn.ReadJSON] is a [ReadResult].
    - A Go map is a reference that may be nil ([GoMap]); a Go channel is a
      reference into the store of mailboxes ([chans]), so that a channel taken
      out of the registry is still the same channel.
    - Extensions are closures over a pointer to the frame: they change the frame and
      whatever they captured. The captured part is the abstract [ExtSt]. *)

From stdpp Require Import base strings list gmap pretty.
From Stdlib Require Import ZArith Lia Sorted.

Local Open Scope Z_scope.
Local Open Scope string_scope.

(** ** The message model *)

Definition error := string.

(** [message.Data] is [interface{}]; nil is [None]. *)
Definition Data := option string.

(** Modelled from the spec: [message.Advise] is not among the sources; the
    spec describes it as a reconnect hint made of a retry policy, a timeout
    and an interval. *)
Record Advise := mkAdvise {
  Reconnect : string;
  Timeout : Z;
  Interval : Z
}.

(** Modelled from the spec: [message.Message] is not among the sources; the
    fields are those the spec lists and [websocket.go] reads or writes. *)
Record Message := mkMessage {
  Channel : string;
  Version : string;
  SupportedConnectionTypes : list string;
  ConnectionType : string;
  ClientId : string;
  Id : string;
  Subscription : string;
  Successful : bool;
  Error : string;
  Advice : option Advise;
  Data_ : Data
}.

Definition set_Error (e : string) (m : Message) : Message :=
  mkMessage (Channel m) (Version m) (SupportedConnectionTypes m)
            (ConnectionType m) (ClientId m) (Id m) (Subscription m)
            (Successful m) e (Advice m) (Data_ m).

(** Modelled from the spec: [Message.GetError] is not among the sources;
    [error] is an optional descriptive string, and a frame carries an error
    when that string is not empty. *)
Definition GetError (m : Message) : option error :=
  if String.eqb (Error m) "" then None else Some (Error m).

(** Modelled from the spec: the reserved control paths ([transport.Meta...]
    in the source, declared outside the sources at hand). *)
Definition MetaHandshake : string := "/meta/handshake".
Definition MetaConnect : string := "/meta/connect".
Definition MetaDisconnect : string := "/meta/disconnect".
Definition MetaSubscribe : string := "/meta/subscribe".
Definition MetaUnsubscribe : string := "/meta/unsubscribe".

(** Modelled from the spec: [transport.IsMetaMessage] is not among the
    sources; a channel is a control channel iff it is one of the five reserved
    paths. *)
Definition IsMetaMessage (m : Message) : bool :=
  String.eqb (Channel m) MetaHandshake
  || String.eqb (Channel m) MetaConnect
  || String.eqb (Channel m) MetaDisconnect
  || String.eqb (Channel m) MetaSubscribe
  || String.eqb (Channel m) MetaUnsubscribe.

Definition transportName : string := "websocket".

(** ** Go values: maps, channels, the counter *)

(** A map value is nil or a reference to a table. Reading a nil map gives the
    zero value, deleting from it does nothing, assigning to it panics. *)
Definition GoMap (V : Type) : Type := option (gmap string V).

Definition gomap_lookup {V} (m : GoMap V) (k : string) : option V :=
  match m with
  | None => None
  | Some t => t !! k
  end.

Definition gomap_delete {V} (k : string) (m : GoMap V) : GoMap V :=
  match m with
  | None => None
  | Some t => Some (delete k t)
  end.

(** [chan *message.Message]: the frames handed over so far, oldest first, and
    whether the channel was closed. The channel is unbuffered: a send returns
    once the consumer took the frame, so [queue] is the sequence the consumer
    sees. *)
Record Mailbox := mkMailbox {
  queue : list Message;
  closed : bool
}.

Definition ChanRef := nat.

(** A registered publish-response callback is an opaque handle; its calls are
    logged in the receiver. *)
Definition Callback := nat.

Inductive PanicReason :=
  | IndexOutOfRange
  | AssignToNilMap
  | SendOnClosedChannel
  | CloseOfClosedChannel
  | CloseOfNilChannel
  | PanicMsg (s : string).

(** [uint64] arithmetic of [atomic.AddUint64], and the conversion [int(...)]
    on a 64-bit platform. *)
Definition wrap64 (z : Z) : Z := z mod 2 ^ 64.

Definition to_int (u : Z) : Z :=
  if Z.ltb u (2 ^ 63) then u else u - 2 ^ 64.

(** [strconv.Itoa]. *)
Definition Itoa (z : Z) : string := pretty z.

(** ** The connection *)

Section Transport.

(** What the registered extensions captured (a writer, a counter, ...). *)
Context {ExtSt : Type}.

(** [transport.IsEventDelivery] and [transport.IsEventPublish] are declared
    outside the sources at hand and take the frame alone; the read loop is
    verified for any such pair of classifiers. *)
Variable IsEventDelivery : Message -> bool.
Variable IsEventPublish : Message -> bool.

(** One element of [message.Extension]: it mutates the frame it is given and
    its own captured state, and returns nothing. *)
Definition Extension : Type := Message -> ExtSt -> Message * ExtSt.

Record Options := mkOptions {
  Url : string;
  InExt : list Extension;
  OutExt : list Extension
}.

(** The receiver. The first seven fields are those of the Go struct
    ([msgID] is the cell the pointer refers to, [stopCh] is whether the stop
    channel was closed); [wire] is what was written to [conn], one batch per
    [WriteJSON]; [chans] is the store of mailboxes; [extSt] is the state of
    the extension closures; [called] logs the publish-response callbacks
    invoked; [workers] counts the read workers started. *)
Record Websocket := mkWebsocket {
  TransportOpts : Options;
  clientID : string;
  msgID : Z;
  advice : option Advise;
  stopCh : bool;
  subs : GoMap ChanRef;
  onPublishResponse : GoMap Callback;
  wire : list (list Message);
  chans : list Mailbox;
  extSt : ExtSt;
  called : list (Callback * Message);
  workers : nat
}.

Definition set_TransportOpts (o : Options) (w : Websocket) : Websocket :=
  mkWebsocket o (clientID w) (msgID w) (advice w) (stopCh w) (subs w)
    (onPublishResponse w) (wire w) (chans w) (extSt w) (called w) (workers w).
Definition set_clientID (c : string) (w : Websocket) : Websocket :=
  mkWebsocket (TransportOpts w) c (msgID w) (advice w) (stopCh w) (subs w)
    (onPublishResponse w) (wire w) (chans w) (extSt w) (called w) (workers w).
Definition set_msgID (n : Z) (w : Websocket) : Websocket :=
  mkWebsocket (TransportOpts w) (clientID w) n (advice w) (stopCh w) (subs w)
    (onPublishResponse w) (wire w) (chans w) (extSt w) (called w) (workers w).
Definition set_advice (a : option Advise) (w : Websocket) : Websocket :=
  mkWebsocket (TransportOpts w) (clientID w) (msgID w) a (stopCh w) (subs w)
    (onPublishResponse w) (wire w) (chans w) (extSt w) (called w) (workers w).
Definition set_stopCh (b : bool) (w : Websocket) : Websocket :=
  mkWebsocket (TransportOpts w) (clientID w) (msgID w) (advice w) b (subs w)
    (onPublishResponse w) (wire w) (chans w) (extSt w) (called w) (workers w).
Definition set_subs (s : GoMap ChanRef) (w : Websocket) : Websocket :=
  mkWebsocket (TransportOpts w) (clientID w) (msgID w) (advice w) (stopCh w) s
    (onPublishResponse w) (wire w) (chans w) (extSt w) (called w) (workers w).
Definition set_onPublishResponse (r : GoMap Callback) (w : Websocket)
  : Websocket :=
  mkWebsocket (TransportOpts w) (clientID w) (msgID w) (advice w) (stopCh w)
    (subs w) r (wire w) (chans w) (extSt w) (called w) (workers w).
Definition set_wire (l : list (list Message)) (w : Websocket) : Websocket :=
  mkWebsocket (TransportOpts w) (clientID w) (msgID w) (advice w) (stopCh w)
    (subs w) (onPublishResponse w) l (chans w) (extSt w) (called w) (workers w).
Definition set_chans (c : list Mailbox) (w : Websocket) : Websocket :=
  mkWebsocket (TransportOpts w) (clientID w) (msgID w) (advice w) (stopCh w)
    (subs w) (onPublishResponse w) (wire w) c (extSt w) (called w) (workers w).
Definition set_extSt (s : ExtSt) (w : Websocket) : Websocket :=
  mkWebsocket (TransportOpts w) (clientID w) (msgID w) (advice w) (stopCh w)
    (subs w) (onPublishResponse w) (wire w) (chans w) s (called w) (workers w).
Definition set_called (l : list (Callback * Message)) (w : Websocket)
  : Websocket :=
  mkWebsocket (TransportOpts w) (clientID w) (msgID w) (advice w) (stopCh w)
    (subs w) (onPublishResponse w) (wire w) (chans w) (extSt w) l (workers w).
Definition set_workers (n : nat) (w : Websocket) : Websocket :=
  mkWebsocket (TransportOpts w) (clientID w) (msgID w) (advice w) (stopCh w)
    (subs w) (onPublishResponse w) (wire w) (chans w) (extSt w) (called w) n.

(** The zero value [Websocket{}] that [init] registers: every map is nil. *)
Definition zeroWebsocket (s : ExtSt) : Websocket :=
  mkWebsocket (mkOptions "" [] []) "" 0 None false None None [] [] s [] 0.

(** *** Computations over the receiver *)

Inductive Res (A : Type) : Type :=
  | Done (a : A) (w : Websocket)
  | Panicked (p : PanicReason)
  | Blocked.
Arguments Done {A} a w.
Arguments Panicked {A} p.
Arguments Blocked {A}.

Definition M (A : Type) : Type := Websocket -> Res A.

Definition ret {A} (a : A) : M A := fun w => Done a w.

Definition bind {A B} (c : M A) (k : A -> M B) : M B := fun w =>
  match c w with
  | Done a w' => k a w'
  | Panicked p => Panicked p
  | Blocked => Blocked
  end.

Definition panic {A} (p : PanicReason) : M A := fun _ => Panicked p.
Definition block {A} : M A := fun _ => Blocked.
Definition gets {A} (f : Websocket -> A) : M A := fun w => Done (f w) w.
Definition modify (f : Websocket -> Websocket) : M unit :=
  fun w => Done tt (f w).

Notation "x <- c ;; k" := (bind c (fun x => k))
  (at level 100, c at next level, right associativity).
Notation "c ;;; k" := (bind c (fun _ => k))
  (at level 100, right associativity).

(** *** Channels *)

(** [make(chan *message.Message, 0)]. *)
Definition make_chan : M ChanRef := fun w =>
  Done (length (chans w)) (set_chans (chans w ++ [mkMailbox [] false]) w).

(** [ch <- msg]. A reference outside the store behaves as the nil channel. *)
Definition chan_send (ch : ChanRef) (msg : Message) : M unit := fun w =>
  match chans w !! ch with
  | None => Blocked
  | Some mb =>
      if closed mb then Panicked SendOnClosedChannel
      else Done tt (set_chans (<[ch := mkMailbox (queue mb ++ [msg]) false]>
                                 (chans w)) w)
  end.

(** [close(ch)]. *)
Definition chan_close (ch : ChanRef) : M unit := fun w =>
  match chans w !! ch with
  | None => Panicked CloseOfNilChannel
  | Some mb =>
      if closed mb then Panicked CloseOfClosedChannel
      else Done tt (set_chans (<[ch := mkMailbox (queue mb) true]> (chans w)) w)
  end.

(** *** The extension pipeline and the send primitive *)

(** [for i := range exts { exts[i](m) }] *)
Fixpoint applyExtensions (exts : list Extension) (m : Message) (s : ExtSt)
  : Message * ExtSt :=
  match exts with
  | [] => (m, s)
  | f :: exts' => let '(m', s') := f m s in applyExtensions exts' m' s'
  end.

Definition applyOutExtensions (m : Message) : M Message := fun w =>
  let '(m', s') := applyExtensions (OutExt (TransportOpts w)) m (extSt w) in
  Done m' (set_extSt s' w).

Definition applyInExtensions (m : Message) : M Message := fun w =>
  let '(m', s') := applyExtensions (InExt (TransportOpts w)) m (extSt w) in
  Done m' (set_extSt s' w).

(** [conn.WriteJSON(payload)] answering [wr]. *)
Definition WriteJSON (payload : list Message) (wr : option error)
  : M (option error) :=
  match wr with
  | None => modify (fun w => set_wire (wire w ++ [payload]) w) ;;; ret None
  | Some e => ret (Some e)
  end.

Definition sendMessage (m : Message) (wr : option error) : M (option error) :=
  m' <- applyOutExtensions m ;;
  let payload := [m'] in
  WriteJSON payload wr.

Definition nextMsgID : M string := fun w =>
  let n := wrap64 (msgID w + 1) in
  Done (Itoa (to_int n)) (set_msgID n w).

Definition handleAdvise (a : Advise) : M unit :=
  modify (set_advice (Some a)).

(** *** Lifecycle *)

(** [conn.ReadJSON(&payload)]: an error, or the decoded batch. *)
Definition ReadResult : Type := error + list Message.

(** [Init]; [dial] is what [websocket.DefaultDialer.Dial] answers. The fresh
    connection has nothing written to it. *)
Definition Init (options : Options) (dial : option error) : M (option error) :=
  modify (set_TransportOpts options) ;;;
  modify (set_msgID 0) ;;;
  modify (set_subs (Some ∅)) ;;;
  modify (set_stopCh false) ;;;
  modify (set_wire []) ;;;
  match dial with
  | Some err => ret (Some err)
  | None => ret None
  end.

Definition handshakeFrame : Message :=
  mkMessage MetaHandshake "1.0" [transportName] "" "" "" "" false "" None None.

Definition Handshake (wr : option error) (rd : ReadResult)
  : M (option error) :=
  let m := handshakeFrame in
  err <- sendMessage m wr ;;
  match err with
  | Some e => ret (Some e)
  | None =>
      match rd with
      | inl e => ret (Some e)
      | inr hsResps =>
          (* from here on [err] is the nil that [ReadJSON] returned *)
          let err : option error := None in
          match hsResps with
          | [] => panic IndexOutOfRange
          | resp0 :: _ =>
              resp <- applyInExtensions resp0 ;;
              match GetError resp with
              | Some _ => ret err
              | None =>
                  modify (set_clientID (ClientId resp)) ;;;
                  ret None
              end
          end
      end
  end.

Definition connectFrame (cid id : string) : Message :=
  mkMessage MetaConnect "" [] transportName cid id "" false "" None None.

(** [go w.readWorker()] is recorded in [workers]; the worker itself is
    [readWorker] below. *)
Definition Connect (wr : option error) : M (option error) :=
  cid <- gets clientID ;;
  id <- nextMsgID ;;
  let m := connectFrame cid id in
  modify (fun w => set_workers (S (workers w)) w) ;;;
  sendMessage m wr.

Definition disconnectFrame (cid id : string) : Message :=
  mkMessage MetaDisconnect "" [] "" cid id "" false "" None None.

(** [Disconnect]; [taken] tells whether a read worker ever receives from the
    unbuffered stop channel. *)
Definition Disconnect (taken : bool) (wr : option error) : M (option error) :=
  cid <- gets clientID ;;
  id <- nextMsgID ;;
  let m := disconnectFrame cid id in
  isClosed <- gets stopCh ;;
  (if isClosed : bool then panic SendOnClosedChannel
   else if taken then ret tt else block) ;;;
  modify (set_stopCh true) ;;;
  sendMessage m wr.

(** *** Subscribe, unsubscribe, publish *)

Definition subscribeFrame (cid subscription id : string) : Message :=
  mkMessage MetaSubscribe "" [] "" cid id subscription false "" None None.

(** [w.subs[subscription] = inMsgCh] *)
Definition subs_store (subscription : string) (ch : ChanRef) : M unit :=
  s <- gets subs ;;
  match s with
  | None => panic AssignToNilMap
  | Some t => modify (set_subs (Some (<[subscription := ch]> t)))
  end.

(** The part of [Subscribe] before the consuming loop: send the request and
    register a fresh mailbox. [inl] is the early [return err]. *)
Definition Subscribe_register (subscription : string) (wr : option error)
  : M (error + ChanRef) :=
  cid <- gets clientID ;;
  id <- nextMsgID ;;
  let m := subscribeFrame cid subscription id in
  err <- sendMessage m wr ;;
  match err with
  | Some e => ret (inl e)
  | None =>
      inMsgCh <- make_chan ;;
      subs_store subscription inMsgCh ;;;
      ret (inr inMsgCh)
  end.

(** How the loop [for inMsg = range inMsgCh] ends, given what the channel
    carries: with a returned value, or still waiting on an open channel. *)
Inductive Consumed :=
  | Returns (e : option error)
  | Waits.

(** The consuming loop of [Subscribe] (and of [Subscription.OnMessage]): the
    payloads passed to [onMessage], in order, and how the loop ends. *)
Fixpoint consume (q : list Message) (isClosed : bool)
  : list Data * Consumed :=
  match q with
  | [] => ([], if isClosed then Returns None else Waits)
  | inMsg :: q' =>
      match GetError inMsg with
      | Some e => ([], Returns (Some e))
      | None =>
          let '(ds, r) := consume q' isClosed in (Data_ inMsg :: ds, r)
      end
  end.

Definition consume_mailbox (mb : Mailbox) : list Data * Consumed :=
  consume (queue mb) (closed mb).

Definition unsubscribeFrame (cid subscription id : string) : Message :=
  mkMessage MetaUnsubscribe "" [] "" cid id subscription false "" None None.

Definition Unsubscribe (subscription : string) (wr : option error)
  : M (option error) :=
  cid <- gets clientID ;;
  id <- nextMsgID ;;
  let m := unsubscribeFrame cid subscription id in
  sendMessage m wr.

Definition publishFrame (cid subscription id : string) (data : Data)
  : Message :=
  mkMessage subscription "" [] "" cid id "" false "" None data.

Definition Publish (subscription : string) (data : Data) (wr : option error)
  : M (string * option error) :=
  id <- nextMsgID ;;
  cid <- gets clientID ;;
  let m := publishFrame cid subscription id data in
  err <- sendMessage m wr ;;
  match err with
  | Some e => ret ("", Some e)
  | None => ret (id, None)
  end.

(** [w.onPublishResponse[subscription] = onMsg] *)
Definition OnPublishResponse (subscription : string) (onMsg : Callback)
  : M unit :=
  r <- gets onPublishResponse ;;
  match r with
  | None => panic AssignToNilMap
  | Some t =>
      modify (set_onPublishResponse (Some (<[subscription := onMsg]> t)))
  end.

(** *** The read-dispatch loop *)

Definition subscribeFailed (subscription : string) : string :=
  "susbscription `" ++ subscription ++ "` failed".

Definition notRegistered (subscription : string) : string :=
  "BUG: subscription not registered `" ++ subscription ++ "`".

(** The [case transport.MetaSubscribe] arm. *)
Definition handleSubscribeResp (msg : Message) : M unit :=
  if negb (Successful msg) then
    s <- gets subs ;;
    match gomap_lookup s (Subscription msg) with
    | None => panic (PanicMsg (notRegistered (Subscription msg)))
    | Some subscription =>
        let msg :=
          match GetError msg with
          | Some _ => set_Error (subscribeFailed (Subscription msg)) msg
          | None => msg
          end in
        chan_send subscription msg ;;;
        chan_close subscription ;;;
        modify (fun w => set_subs (gomap_delete (Channel msg) (subs w)) w)
    end
  else ret tt.

(** [onPublish(msg)]: the call is logged. *)
Definition invoke (onPublish : Callback) (msg : Message) : M unit :=
  modify (fun w => set_called (called w ++ [(onPublish, msg)]) w).

(** The body of one iteration after a successful [ReadJSON]. *)
Definition dispatch (payload : list Message) : M unit :=
  match payload with
  | [] => panic IndexOutOfRange
  | msg :: _ =>
      match Advice msg with
      | Some a => handleAdvise a
      | None => ret tt
      end ;;;
      if IsMetaMessage msg then
        if String.eqb (Channel msg) MetaSubscribe then handleSubscribeResp msg
        else if String.eqb (Channel msg) MetaUnsubscribe then ret tt
        else if String.eqb (Channel msg) MetaConnect then ret tt
        else if String.eqb (Channel msg) MetaDisconnect then ret tt
        else if String.eqb (Channel msg) MetaHandshake then ret tt
        else ret tt
      else if IsEventDelivery msg then
        s <- gets subs ;;
        let subscription := gomap_lookup s (Channel msg) in
        msg' <- applyInExtensions msg ;;
        match subscription with
        | Some ch => chan_send ch msg'
        | None => ret tt
        end
      else if IsEventPublish msg then
        r <- gets onPublishResponse ;;
        match gomap_lookup r (Channel msg) with
        | Some onPublish => invoke onPublish msg
        | None => ret tt
        end
      else ret tt
  end.

(** What one iteration finds: a value ready on the stop channel, or the
    answer of [ReadJSON]. *)
Inductive LoopEvent :=
  | StopSignal (err : option error)
  | Read (rd : ReadResult).

(** How the worker stands after the events given: it returned, or it waits
    in [ReadJSON] for the next frame. *)
Inductive LoopExit :=
  | Returned (err : option error)
  | AwaitingFrame.

Fixpoint readWorker (evs : list LoopEvent) : M LoopExit :=
  match evs with
  | [] =>
      isClosed <- gets stopCh ;;
      if isClosed : bool then ret (Returned None) else ret AwaitingFrame
  | ev :: evs' =>
      isClosed <- gets stopCh ;;
      if isClosed : bool then ret (Returned None)
      else
        match ev with
        | StopSignal err => ret (Returned err)
        | Read (inl err) => ret (Returned (Some err))
        | Read (inr payload) => dispatch payload ;;; readWorker evs'
        end
  end.

(** *** Derived notions used in the statements *)


(** The receiver after [sendMessage m wr]. *)
Definition afterSend (m : Message) (wr : option error) (w : Websocket)
  : Websocket :=
  let sent := applyExtensions (OutExt (TransportOpts w)) m (extSt w) in
  match wr with
  | None => set_wire (wire w ++ [[fst sent]]) (set_extSt (snd sent) w)
  | Some _ => set_extSt (snd sent) w
  end.

(** The frame the nack arm pushes: the error text is replaced only when the
    frame already carries one. *)
Definition pushedNack (msg : Message) : Message :=
  match GetError msg with
  | Some _ => set_Error (subscribeFailed (Subscription msg)) msg
  | None => msg
  end.

(** The receiver once [handleAdvise] ran for the frame, if it had advice. *)
Definition advised (msg : Message) (w : Websocket) : Websocket :=
  match Advice msg with
  | Some a => set_advice (Some a) w
  | None => w
  end.

(** The first frame of the handshake response once the inbound extensions
    ran on it, with the state they leave. *)
Definition hsResponse (w : Websocket) (resp0 : Message) : Message * ExtSt :=
  applyExtensions (InExt (TransportOpts w)) resp0
    (snd (applyExtensions (OutExt (TransportOpts w)) handshakeFrame
            (extSt w))).

(** *** The outbound calls, uniformly *)

(** The six calls that send a frame. [Subscribe] stands for its sending part,
    [Disconnect] is taken with a worker that accepts the stop signal. *)
Inductive OutOp :=
  | OpHandshake (rd : ReadResult)
  | OpConnect
  | OpDisconnect
  | OpSubscribe (subscription : string)
  | OpUnsubscribe (subscription : string)
  | OpPublish (subscription : string) (data : Data).

Definition runOp (op : OutOp) (wr : option error) : M unit :=
  match op with
  | OpHandshake rd => Handshake wr rd ;;; ret tt
  | OpConnect => Connect wr ;;; ret tt
  | OpDisconnect => Disconnect true wr ;;; ret tt
  | OpSubscribe subscription => Subscribe_register subscription wr ;;; ret tt
  | OpUnsubscribe subscription => Unsubscribe subscription wr ;;; ret tt
  | OpPublish subscription data => Publish subscription data wr ;;; ret tt
  end.

(** What a call needs to complete: [Handshake] a response that is not the
    empty batch, [Disconnect] a stop channel not yet closed, [Subscribe] a
    registry that is not the nil map. *)
Definition completes (op : OutOp) (wr : option error) (w : Websocket) : Prop :=
  match op with
  | OpHandshake (inr []) => wr <> None
  | OpDisconnect => stopCh w = false
  | OpSubscribe _ => wr = None -> subs w <> None
  | _ => True
  end.

(** The id the next call of [nextMsgID] returns. *)
Definition nextID (w : Websocket) : string :=
  Itoa (to_int (wrap64 (msgID w + 1))).



(** Calls that take an id from the counter, as a caller issues them one after
    the other. *)
Inductive Call :=
  | CPublish (subscription : string) (data : Data) (wr : option error)
  | CSubscribe (subscription : string) (wr : option error)
  | CUnsubscribe (subscription : string) (wr : option error)
  | CConnect (wr : option error)
  | CDisconnect (wr : option error).

(** One call; the value is the id [Publish] returned with a nil error. *)
Definition runCall (c : Call) : M (option string) :=
  match c with
  | CPublish subscription data wr =>
      r <- Publish subscription data wr ;;
      match r with
      | (id, None) => ret (Some id)
      | (_, Some _) => ret None
      end
  | CSubscribe subscription wr =>
      Subscribe_register subscription wr ;;; ret None
  | CUnsubscribe subscription wr => Unsubscribe subscription wr ;;; ret None
  | CConnect wr => Connect wr ;;; ret None
  | CDisconnect wr => Disconnect true wr ;;; ret None
  end.

(** The ids the successful [Publish] calls of a sequence return, in call
    order; a call that panics or blocks ends the sequence. *)
Fixpoint idsReturned (cs : list Call) (w : Websocket) : list string :=
  match cs with
  | [] => []
  | c :: cs' =>
      match runCall c w with
      | Done r w' =>
          match r with
          | Some id => id :: idsReturned cs' w'
          | None => idsReturned cs' w'
          end
      | Panicked _ => []
      | Blocked => []
      end
  end.

End Transport.

Arguments Done {ExtSt A} a w.
Arguments Panicked {ExtSt A} p.
Arguments Blocked {ExtSt A}.
Arguments afterSend : simpl never.

(** ** Concrete extensions and classifiers, for the runs below *)

Definition set_ConnectionType (c : string) (m : Message) : Message :=
  mkMessage (Channel m) (Version m) (SupportedConnectionTypes m) c
            (ClientId m) (Id m) (Subscription m) (Successful m) (Error m)
            (Advice m) (Data_ m).

(** An extension that tags the frame it is given and counts its calls. *)
Definition tagging : @Extension nat := fun m n =>
  (set_ConnectionType (ConnectionType m ++ "+tag") m, S n).

(** A pair of classifiers: an application frame with a payload is a
    delivery, one without is a publish response. *)
Definition withPayload (m : Message) : bool :=
  negb (IsMetaMessage m) && bool_decide (Data_ m <> None).

Definition withoutPayload (m : Message) : bool :=
  negb (IsMetaMessage m) && bool_decide (Data_ m = None).

Definition taggingOptions : @Options nat :=
  mkOptions "ws://localhost:8000/faye" [tagging] [tagging].

(** A connection after [Init] with a successful dial. *)
Definition fresh : @Websocket nat :=
  match Init taggingOptions None (zeroWebsocket 0%nat) with
  | Done _ w => w
  | _ => zeroWebsocket 0%nat
  end.

(** The receiver a computation leaves, [d] when it did not complete. *)
Definition stateOf {E A : Type} (r : @Res E A) (d : @Websocket E)
  : @Websocket E :=
  match r with
  | Done _ w => w
  | _ => d
  end.

(** A subscribe response for [subscription] that signals failure, with the
    error text [err] (empty when the server sent none). *)
Definition nack (subscription err : string) : Message :=
  mkMessage MetaSubscribe "" [] "" "c1" "1" subscription false err None None.

(** A successful connect response. *)
Definition connectAck : Message :=
  mkMessage MetaConnect "" [] "" "c1" "1" "" true "" None None.

(** A successful handshake response carrying the client id [cid]. *)
Definition handshakeReply (cid : string) : Message :=
  mkMessage MetaHandshake "1.0" [transportName] "" cid "" "" true "" None None.

(** A frame on the application channel [channel] with payload [data]. *)
Definition event (channel : string) (data : Data) : Message :=
  mkMessage channel "" [] "" "c1" "7" "" true "" None data.

(** [fresh] after the sending part of [Subscribe(subscription, ...)]. *)
Definition subscribedTo (subscription : string) : @Websocket nat :=
  stateOf (Subscribe_register subscription None fresh) fresh.

(** A connection that has handed out [2^63 - 2] ids so far. *)
Definition nearOverflow : @Websocket nat := set_msgID (2 ^ 63 - 2) fresh.

(** [n] successful publishes in a row. *)
Definition publishes {E : Type} (n : nat) (w : @Websocket E) : @Websocket E :=
  Nat.iter n (fun w => stateOf (Publish "/test" (Some "hello world") None w) w)
    w.

(** ** Further notions: several frames in a row, the transport registry *)

(** The inbound list run over the frames of successive iterations, the state
    of the extensions carried from one frame to the next. *)
Fixpoint passIn {E : Type} (exts : list (@Extension E)) (msgs : list Message)
  (s : E) : list Message * E :=
  match msgs with
  | [] => ([], s)
  | m :: ms =>
      let '(m', s') := applyExtensions exts m s in
      let '(ms', s'') := passIn exts ms s' in
      (m' :: ms', s'')
  end.

(** One iteration per frame, each frame alone in its batch. *)
Definition framesRead (msgs : list Message) : list LoopEvent :=
  map (fun m => Read (inr [m])) msgs.

(** [transport/transport.go]: the table of registered transports. [T] is the
    interface type [Transport], of which only [Name] matters here; the nil
    interface that [GetTransport] returns for an unknown name is [None]. *)
Module TransportRegistry.
Section Registry.

Context {T : Type}.
Variable Name : T -> string.

(** [var registeredTransports = map[string]Transport{}] *)
Definition registeredTransports : gmap string T := ∅.

Definition RegisterTransport (t : T) (reg : gmap string T) : gmap string T :=
  <[Name t := t]> reg.

Definition GetTransport (name : string) (reg : gmap string T) : option T :=
  reg !! name.

End Registry.
End TransportRegistry.

(** [client.go]: the options of the facade and [NewClient]. [Ext] stands for
    [message.Extension] and [T] for [transport.Transport]; a nil field is
    [None]. An [Option] of the source mutates the options it is given. *)
Module Client.
Section Facade.

Context {Ext T : Type}.

Record options := mkOptions {
  inExtension : option Ext;
  outExtension : option Ext;
  transport : option T
}.






End Facade.
End Client.

(** The mailboxes of [w'] continue those of [w]: there are as many, each
    holds what it held with possibly more behind, and a closed one is as it
    was. *)
Definition continues {E : Type} (w w' : @Websocket E) : Prop :=
  length (chans w') = length (chans w)
  /\ forall ch mb, chans w !! ch = Some mb ->
       exists mb', chans w' !! ch = Some mb'
         /\ queue mb `prefix_of` queue mb'
         /\ (closed mb = true -> mb' = mb).

(** ** More concrete receivers and frames *)

(** A connection after [Init] with no extension registered. *)
Definition plain : @Websocket nat :=
  stateOf (Init (mkOptions "ws://localhost:8000/faye" [] []) None
             (zeroWebsocket 0%nat)) (zeroWebsocket 0%nat).

(** [plain] after the sending part of [Subscribe("/test", ...)]. *)
Definition plainSubscribed : @Websocket nat :=
  stateOf (Subscribe_register "/test" None plain) plain.

(** The frame the server sends for a publish of ["hello world"] on
    [/test]. *)
Definition hello : Message := event "/test" (Some "hello world").

(** [subscribedTo "/unauthorized"] after the loop read the failed subscribe
    response: the entry is still there and its mailbox is closed. *)
Definition nacked : @Websocket nat :=
  stateOf (readWorker withPayload withoutPayload
             [Read (inr [nack "/unauthorized" "403::Forbidden"])]
             (subscribedTo "/unauthorized"))
          fresh.

(** [fresh] with a publish-response registry that is a table. *)
Definition withCallbacks : @Websocket nat :=
  set_onPublishResponse (Some ∅) fresh.

(** A connect response that carries advice. *)
Definition connectAckAdvice : Message :=
  mkMessage MetaConnect "" [] "" "c1" "1" "" true ""
    (Some (mkAdvise "retry" 60000 0)) None.

(** * Properties *)

Local Open Scope list_scope.

(** Unfolds the computations over the receiver down to [Res]. *)
Ltac run :=
  unfold handleAdvise, invoke, applyInExtensions, applyOutExtensions,
    WriteJSON, nextMsgID in *;
  unfold bind, ret, gets, modify, panic, block in *;
  simpl in *.

(** Unfolds one iteration of the read loop. *)
Ltac run_dispatch :=
  unfold dispatch, handleSubscribeResp, chan_send, chan_close in *; run.

(** Unfolds one iteration, the channel operations left folded. *)
Ltac unfold_dispatch_only H :=
  unfold dispatch, handleSubscribeResp in H; run.

Section Properties.

Context {ExtSt : Type}.
Variable IsEventDelivery : Message -> bool.
Variable IsEventPublish : Message -> bool.

Abbreviation WS := (@Websocket ExtSt).
Abbreviation dispatch := (dispatch IsEventDelivery IsEventPublish).
Abbreviation readWorker := (readWorker IsEventDelivery IsEventPublish).

(** ** The send primitive *)

Lemma send_preserves (m : Message) (wr : option error) (w : WS) :
  exists w', sendMessage m wr w = Done wr w'
    /\ TransportOpts w' = TransportOpts w /\ clientID w' = clientID w
    /\ msgID w' = msgID w /\ advice w' = advice w /\ stopCh w' = stopCh w
    /\ subs w' = subs w /\ onPublishResponse w' = onPublishResponse w
    /\ chans w' = chans w /\ called w' = called w /\ workers w' = workers w
    /\ extSt w' = snd (applyExtensions (OutExt (TransportOpts w)) m (extSt w))
    /\ wire w' =
         match wr with
         | None => wire w ++
             [[fst (applyExtensions (OutExt (TransportOpts w)) m (extSt w))]]
         | Some _ => wire w
         end.
Proof.
  unfold sendMessage. run.
  destruct (applyExtensions _ m (extSt w)) as [m' s'] eqn:E.
  destruct wr as [e|]; simpl; eexists; (split; [reflexivity|]);
    simpl; repeat split; reflexivity.
Qed.

(** ** C8: only the head of a batch is dispatched *)


(** One iteration of the loop, unfolded. *)
Lemma readWorker_cons (ev : LoopEvent) (evs : list LoopEvent) (w : WS) :
  readWorker (ev :: evs) w =
    if stopCh w then Done (Returned None) w
    else match ev with
         | StopSignal err => Done (Returned err) w
         | Read (inl err) => Done (Returned (Some err)) w
         | Read (inr payload) =>
             match dispatch payload w with
             | Done _ w' => readWorker evs w'
             | Panicked p => Panicked p
             | Blocked => Blocked
             end
         end.
Proof.
  simpl. unfold bind at 1. unfold gets.
  destruct (stopCh w); [reflexivity|].
  destruct ev as [err|[err|payload]]; reflexivity.
Qed.


(** ** C10: the first element is taken without a length check *)

Lemma dispatch_cons_in_bounds (msg : Message) (rest : list Message) (w : WS) :
  dispatch (msg :: rest) w <> Panicked IndexOutOfRange.
Proof.
  run_dispatch.
  repeat (case_match; simpl in *; simplify_eq); try discriminate.
Qed.

Lemma Handshake_cons_in_bounds (resp0 : Message) (rest : list Message)
  (wr : option error) (w : WS) :
  Handshake wr (inr (resp0 :: rest)) w <> Panicked IndexOutOfRange.
Proof.
  unfold Handshake, sendMessage. run.
  repeat (case_match; simpl in *; simplify_eq); try discriminate.
Qed.

(** C10. The read loop and [Handshake] take the first element of the batch
    they read without checking its length: the access is out of bounds exactly
    when the batch is empty, and then the call panics. *)
Theorem first_element_unchecked (payload : list Message) (w : WS) :
  (dispatch payload w = Panicked IndexOutOfRange <-> payload = [])
  /\ (Handshake None (inr payload) w = Panicked IndexOutOfRange
      <-> payload = [])
  /\ (forall evs, readWorker (Read (inr []) :: evs) w =
        if stopCh w then Done (Returned None) w
        else Panicked IndexOutOfRange).
Proof.
  split; [|split].
  - split.
    + destruct payload as [|msg rest]; [reflexivity|].
      intros H. now apply dispatch_cons_in_bounds in H.
    + intros ->. reflexivity.
  - split.
    + destruct payload as [|resp0 rest]; [reflexivity|].
      intros H. now apply Handshake_cons_in_bounds in H.
    + intros ->. unfold Handshake, sendMessage. run.
      destruct (applyExtensions _ _ _). reflexivity.
  - intros evs. rewrite readWorker_cons. reflexivity.
Qed.

(** ** C9: a nack for an unknown subscription *)

Lemma subscribe_channel_is_meta (msg : Message) :
  Channel msg = MetaSubscribe -> IsMetaMessage msg = true.
Proof. unfold IsMetaMessage. intros ->. reflexivity. Qed.

(** C9. When the loop reads a subscribe response that signals failure and the
    registry has no mailbox under the frame's subscription, the worker panics
    with the message naming the subscription; it does not go on to the next
    frame. *)
Theorem nack_without_mailbox_panics (msg : Message) (rest : list Message)
  (evs : list LoopEvent) (w : WS) :
  stopCh w = false ->
  Channel msg = MetaSubscribe ->
  Successful msg = false ->
  gomap_lookup (subs w) (Subscription msg) = None ->
  readWorker (Read (inr (msg :: rest)) :: evs) w =
    Panicked (PanicMsg (notRegistered (Subscription msg))).
Proof.
  intros Hstop Hch Hnack Hnone.
  rewrite readWorker_cons, Hstop.
  assert (dispatch (msg :: rest) w =
            Panicked (PanicMsg (notRegistered (Subscription msg)))) as ->;
    [|reflexivity].
  run_dispatch.
  rewrite (subscribe_channel_is_meta msg Hch), Hch, Hnack. simpl.
  destruct (Advice msg); simpl; rewrite Hnone; reflexivity.
Qed.

(** ** C7: unsubscribe only sends *)

(** C7. [Unsubscribe] always returns what the write returned. It takes one
    id from the counter, builds the unsubscribe frame with the channel, the
    client id and that id, and hands it to the send primitive; the
    subscription registry, the mailboxes and every other field are as before,
    so the channel's entry, if any, is still registered. *)
Theorem Unsubscribe_only_sends (subscription : string) (wr : option error)
  (w : WS) :
  let frame := unsubscribeFrame (clientID w) subscription (nextID w) in
  let sent := applyExtensions (OutExt (TransportOpts w)) frame (extSt w) in
  exists w', Unsubscribe subscription wr w = Done wr w'
    /\ (Channel frame = MetaUnsubscribe /\ Subscription frame = subscription
        /\ ClientId frame = clientID w /\ Id frame = nextID w)
    /\ wire w' = match wr with
                 | None => wire w ++ [[fst sent]]
                 | Some _ => wire w
                 end
    /\ extSt w' = snd sent
    /\ msgID w' = wrap64 (msgID w + 1)
    /\ subs w' = subs w
    /\ gomap_lookup (subs w') subscription = gomap_lookup (subs w) subscription
    /\ chans w' = chans w
    /\ onPublishResponse w' = onPublishResponse w
    /\ (clientID w' = clientID w /\ advice w' = advice w
        /\ stopCh w' = stopCh w /\ called w' = called w
        /\ workers w' = workers w /\ TransportOpts w' = TransportOpts w).
Proof.
  intros frame sent. unfold Unsubscribe. run.
  destruct (send_preserves frame wr (set_msgID (wrap64 (msgID w + 1)) w))
    as (w' & E & Ho & Hc & Hm & Ha & Hs & Hsu & Hp & Hch & Hca & Hw & He & Hwi).
  fold (nextID w). fold frame. rewrite E. simpl in *.
  exists w'. rewrite Hsu. repeat split; auto.
Qed.

(** ** C5: every outbound call goes through the send primitive once *)

Lemma sendMessage_eq (m : Message) (wr : option error) (w : WS) :
  sendMessage m wr w = Done wr (afterSend m wr w).
Proof.
  unfold sendMessage, afterSend. run.
  destruct (applyExtensions _ m (extSt w)) as [m' s'].
  destruct wr; reflexivity.
Qed.

Lemma subs_afterSend (m : Message) (wr : option error) (w : WS) :
  subs (afterSend m wr w) = subs w.
Proof. unfold afterSend. destruct wr; reflexivity. Qed.

Lemma Done_state {A : Type} (a a' : A) (w w' : WS) :
  Done a w = Done a' w' -> w = w'.
Proof. congruence. Qed.

Lemma Done_inv {A : Type} (a a' : A) (w w' : WS) :
  Done a w = Done a' w' -> a = a' /\ w = w'.
Proof. intros H. split; congruence. Qed.


(** The calls complete but for a panic of their own: there is always a state
    the statement above speaks of. *)
Lemma runOp_completes (op : OutOp) (wr : option error) (w : WS) :
  completes op wr w -> exists w', runOp op wr w = Done tt w'.
Proof.
  intros Hc.
  destruct op as [rd| | |subscription|subscription|subscription data];
    unfold runOp, Handshake, Connect, Disconnect, Subscribe_register,
      Unsubscribe, Publish, subs_store, make_chan; run;
    rewrite ?sendMessage_eq; simpl in *.
  - destruct wr as [e|]; [eexists; reflexivity|].
    destruct rd as [e|[|resp0 rest]]; simpl; [eexists; reflexivity|congruence|].
    destruct (applyExtensions (InExt _) resp0 _) as [resp s2]. simpl.
    destruct (GetError resp); eexists; reflexivity.
  - eexists; reflexivity.
  - rewrite Hc. simpl. rewrite sendMessage_eq. eexists; reflexivity.
  - destruct wr as [e|]; simpl; [eexists; reflexivity|].
    rewrite ?(subs_afterSend _ None).
    destruct (subs w); simpl; [eexists; reflexivity|].
    now destruct Hc.
  - eexists; reflexivity.
  - destruct wr; eexists; reflexivity.
Qed.

(** ** C6: the ids of successive publishes *)

Lemma msgID_afterSend (m : Message) (wr : option error) (w : WS) :
  msgID (afterSend m wr w) = msgID w.
Proof. unfold afterSend. destruct wr; reflexivity. Qed.

(** Every call of a sequence takes exactly one id, and a successful
    [Publish] returns the one it took. *)
Lemma runCall_counter (c : Call) (w w' : WS) (r : option string) :
  runCall c w = Done r w' ->
  msgID w' = wrap64 (msgID w + 1)
  /\ (forall id, r = Some id -> id = nextID w).
Proof.
  intros H.
  destruct c as [subscription data wr|subscription wr|subscription wr|wr|wr];
    unfold runCall, Publish, Subscribe_register, Unsubscribe, Connect,
      Disconnect, subs_store, make_chan in H; run;
    fold (nextID w) in H; rewrite ?sendMessage_eq in H.
  - destruct wr; simpl in H;
      destruct (Done_inv _ _ _ _ H) as [<- <-]; unfold afterSend; simpl;
      (split; [reflexivity|congruence]).
  - destruct wr; simpl in H.
    + destruct (Done_inv _ _ _ _ H) as [<- <-]. unfold afterSend. simpl.
      split; [reflexivity|congruence].
    + rewrite ?(subs_afterSend _ None) in H.
      destruct (subs w); simpl in H; [|discriminate].
      destruct (Done_inv _ _ _ _ H) as [<- <-]. unfold afterSend. simpl.
      split; [reflexivity|congruence].
  - destruct (Done_inv _ _ _ _ H) as [<- <-]. unfold afterSend.
    destruct wr; simpl; (split; [reflexivity|congruence]).
  - destruct (Done_inv _ _ _ _ H) as [<- <-]. unfold afterSend.
    destruct wr; simpl; (split; [reflexivity|congruence]).
  - destruct (stopCh w); simpl in H; [discriminate|].
    rewrite sendMessage_eq in H.
    destruct (Done_inv _ _ _ _ H) as [<- <-]. unfold afterSend.
    destruct wr; simpl; (split; [reflexivity|congruence]).
Qed.

Lemma wrap64_small (z : Z) : 0 <= z < 2 ^ 64 -> wrap64 z = z.
Proof. intros H. unfold wrap64. now apply Z.mod_small. Qed.

Lemma to_int_small (z : Z) : z < 2 ^ 63 -> to_int z = z.
Proof. intros H. unfold to_int. destruct (Z.ltb_spec z (2 ^ 63)); lia. Qed.

Lemma nextID_small (w : WS) :
  0 <= msgID w -> msgID w + 1 < 2 ^ 63 -> nextID w = Itoa (msgID w + 1).
Proof.
  intros H0 H1. unfold nextID.
  rewrite wrap64_small by lia. now rewrite to_int_small.
Qed.

(** The numbers behind the returned ids lie above the counter the sequence
    started from and grow along the sequence. *)
Lemma idsReturned_sorted (cs : list Call) (w : WS) :
  0 <= msgID w ->
  msgID w + Z.of_nat (length cs) < 2 ^ 63 ->
  exists zs : list Z,
    idsReturned cs w = map Itoa zs
    /\ StronglySorted Z.lt zs
    /\ Forall (fun z => msgID w < z) zs.
Proof.
  revert w. induction cs as [|c cs IH]; intros w H0 Hb.
  - exists []. repeat split; constructor.
  - simpl in Hb |- *.
    destruct (runCall c w) as [r w'|p|] eqn:E;
      try (exists []; repeat split; constructor).
    destruct (runCall_counter c w w' r E) as [Hc Hid].
    rewrite wrap64_small in Hc by lia.
    destruct (IH w') as (zs & Hzs & Hs & Hall); try lia.
    destruct r as [id|].
    + exists ((msgID w + 1) :: zs). rewrite Hzs. simpl.
      rewrite (Hid id eq_refl), nextID_small by lia.
      repeat split.
      * constructor; [assumption|].
        eapply Forall_impl; [exact Hall|]. simpl. intros z Hz. lia.
      * constructor; [lia|].
        eapply Forall_impl; [exact Hall|]. simpl. intros z Hz. lia.
    + exists zs. repeat split; auto.
      eapply Forall_impl; [exact Hall|]. simpl. intros z Hz. lia.
Qed.

Lemma sorted_lt_NoDup (zs : list Z) : StronglySorted Z.lt zs -> NoDup zs.
Proof.
  induction 1 as [|z zs Hs IH Hall]; constructor; auto.
  intros Hin. rewrite Forall_forall in Hall.
  specialize (Hall z Hin). lia.
Qed.

(** C6, as amended. On a connection whose counter stays below [2^63], the
    ids returned by the successful [Publish] calls of any sequence of calls
    (publishes interleaved with the other calls that take ids) are the
    decimal writings of strictly increasing numbers, and are pairwise
    distinct. *)
Theorem publish_ids_increasing (cs : list Call) (w : WS) :
  0 <= msgID w ->
  msgID w + Z.of_nat (length cs) < 2 ^ 63 ->
  (exists zs : list Z,
      idsReturned cs w = map Itoa zs /\ StronglySorted Z.lt zs)
  /\ NoDup (idsReturned cs w).
Proof.
  intros H0 Hb.
  destruct (idsReturned_sorted cs w H0 Hb) as (zs & Hzs & Hs & _).
  split; [exists zs; auto|].
  rewrite Hzs. apply NoDup_fmap_2; [apply pretty_Z_inj|].
  now apply sorted_lt_NoDup.
Qed.

(** ** C1: what the loop does with a nack whose mailbox is registered *)

Lemma nack_dispatch (msg : Message) (rest : list Message) (w : WS)
  (ch : ChanRef) (mb : Mailbox) :
  Channel msg = MetaSubscribe ->
  Successful msg = false ->
  gomap_lookup (subs w) (Subscription msg) = Some ch ->
  chans w !! ch = Some mb ->
  closed mb = false ->
  dispatch (msg :: rest) w =
    Done tt
      (set_subs (gomap_delete MetaSubscribe (subs w))
         (set_chans
            (<[ch := mkMailbox (queue mb ++ [pushedNack msg]) true]> (chans w))
            (advised msg w))).
Proof.
  intros Hch Hnack Hsub Hmb Hopen.
  assert (ch < length (chans w))%nat as Hlt by (eapply lookup_lt_Some; eauto).
  run_dispatch. unfold advised, pushedNack.
  rewrite (subscribe_channel_is_meta msg Hch), Hch, Hnack. simpl.
  assert (Channel
            match GetError msg with
            | Some _ => set_Error (subscribeFailed (Subscription msg)) msg
            | None => msg
            end = MetaSubscribe) as Hch'
    by (destruct (GetError msg); simpl; assumption).
  destruct (Advice msg); simpl; rewrite Hsub; simpl; rewrite Hmb, Hopen;
    simpl; rewrite list_lookup_insert_eq by assumption; simpl;
    rewrite list_insert_insert_eq, Hch'; reflexivity.
Qed.

(** After the nack arm the mailbox is closed and holds the one frame more,
    and the registry still maps the subscription to it unless the
    subscription is named like the subscribe control channel: the entry that
    is deleted is the one under the frame's channel. *)
Lemma nack_keeps_entry (msg : Message) (rest : list Message) (w : WS)
  (ch : ChanRef) (mb : Mailbox) :
  Channel msg = MetaSubscribe ->
  Successful msg = false ->
  gomap_lookup (subs w) (Subscription msg) = Some ch ->
  chans w !! ch = Some mb ->
  closed mb = false ->
  Subscription msg <> MetaSubscribe ->
  exists w', dispatch (msg :: rest) w = Done tt w'
    /\ chans w' !! ch = Some (mkMailbox (queue mb ++ [pushedNack msg]) true)
    /\ gomap_lookup (subs w') (Subscription msg) = Some ch.
Proof.
  intros Hch Hnack Hsub Hmb Hopen Hne.
  eexists. split; [eapply nack_dispatch; eauto|]. simpl.
  split.
  - unfold advised. destruct (Advice msg); simpl;
      apply list_lookup_insert_eq; eapply lookup_lt_Some; eauto.
  - destruct (subs w) as [t|]; simpl in *; [|discriminate].
    rewrite lookup_delete_ne; auto.
Qed.

(** ** C2: what [Handshake] returns and stores *)

Lemma Handshake_read (resp0 : Message) (rest : list Message) (w : WS) :
  Handshake None (inr (resp0 :: rest)) w =
    let w1 := set_extSt (snd (hsResponse w resp0))
                (afterSend handshakeFrame None w) in
    match GetError (fst (hsResponse w resp0)) with
    | Some _ => Done None w1
    | None => Done None (set_clientID (ClientId (fst (hsResponse w resp0))) w1)
    end.
Proof.
  unfold Handshake, hsResponse. run. rewrite sendMessage_eq. simpl.
  unfold afterSend at 1 2. simpl.
  destruct (applyExtensions (InExt _) resp0 _) as [resp s2]. simpl.
  destruct (GetError resp); reflexivity.
Qed.

(** C2, as amended. [Handshake] returns the error of the send or of the read
    when one of them fails, and leaves the client id alone. When the first
    frame of the response, after the inbound extensions, carries no error,
    [Handshake] returns nil and stores the client id of that frame, empty or
    not. When the frame carries an error the stored client id is left as it
    was. *)
Theorem Handshake_amended (w : WS) :
  (forall e rd, exists w',
      Handshake (Some e) rd w = Done (Some e) w' /\ clientID w' = clientID w)
  /\ (forall e, exists w',
      Handshake None (inl e) w = Done (Some e) w' /\ clientID w' = clientID w)
  /\ (forall resp0 rest,
      GetError (fst (hsResponse w resp0)) = None ->
      exists w',
        Handshake None (inr (resp0 :: rest)) w = Done None w'
        /\ clientID w' = ClientId (fst (hsResponse w resp0)))
  /\ (forall resp0 rest,
      GetError (fst (hsResponse w resp0)) <> None ->
      exists r w',
        Handshake None (inr (resp0 :: rest)) w = Done r w'
        /\ clientID w' = clientID w).
Proof.
  repeat split.
  - intros e rd. unfold Handshake. run. rewrite sendMessage_eq.
    eexists. split; [reflexivity|]. reflexivity.
  - intros e. unfold Handshake. run. rewrite sendMessage_eq.
    eexists. split; [reflexivity|]. reflexivity.
  - intros resp0 rest Hnil. rewrite Handshake_read. simpl. rewrite Hnil.
    eexists. split; reflexivity.
  - intros resp0 rest Herr. rewrite Handshake_read. simpl.
    destruct (GetError _); [|congruence].
    do 2 eexists. split; reflexivity.
Qed.

(** ** C3: what [Init] sets up *)

(** C3. [Init] returns exactly what the dial returned. On the zero value of
    the receiver with a successful dial it leaves the counter at zero and the
    subscription registry empty, but the publish-response registry is still
    the nil map, and registering a callback on it panics. *)
Theorem Init_leaves_publish_registry_nil (options : Options) (s : ExtSt)
  (subscription : string) (onMsg : Callback) :
  (forall dial (w : WS), exists w', Init options dial w = Done dial w')
  /\ exists w', Init options None (zeroWebsocket s) = Done None w'
       /\ msgID w' = 0
       /\ subs w' = Some ∅
       /\ onPublishResponse w' = None
       /\ OnPublishResponse subscription onMsg w' = Panicked AssignToNilMap.
Proof.
  split.
  - intros [err|] w; eexists; reflexivity.
  - eexists. split; [reflexivity|]. repeat split.
Qed.

(** ** C4: where the inbound extensions run *)

Lemma dispatch_delivery (msg : Message) (rest : list Message) (w : WS) :
  IsMetaMessage msg = false ->
  IsEventDelivery msg = true ->
  let passed := applyExtensions (InExt (TransportOpts w)) msg (extSt w) in
  dispatch (msg :: rest) w =
    match gomap_lookup (subs w) (Channel msg) with
    | Some ch => chan_send ch (fst passed) (set_extSt (snd passed) (advised msg w))
    | None => Done tt (set_extSt (snd passed) (advised msg w))
    end.
Proof.
  intros Hmeta Hdel. run_dispatch. unfold advised. rewrite Hmeta, Hdel.
  destruct (Advice msg); simpl;
    destruct (applyExtensions _ msg (extSt w)) as [m' s']; simpl;
    destruct (gomap_lookup (subs w) (Channel msg)); reflexivity.
Qed.

Lemma chan_send_extSt (ch : ChanRef) (m : Message) (w w' : WS) (r : unit) :
  chan_send ch m w = Done r w' -> extSt w' = extSt w.
Proof.
  unfold chan_send. intros H.
  destruct (chans w !! ch) as [mb|]; [|discriminate].
  destruct (closed mb); [discriminate|].
  apply Done_state in H. subst w'. reflexivity.
Qed.

Lemma dispatch_other_extSt (msg : Message) (rest : list Message) (w w' : WS)
  (r : unit) :
  IsMetaMessage msg = true \/ IsEventDelivery msg = false ->
  dispatch (msg :: rest) w = Done r w' ->
  extSt w' = extSt w.
Proof.
  intros Hkind H. run_dispatch.
  repeat (case_match; simpl in *; simplify_eq); simpl; try reflexivity;
    try (destruct Hkind; congruence).
Qed.

(** C4, as amended. The read loop runs the inbound extensions once on a
    frame it classifies as an event delivery, before the frame goes to the
    mailbox of its channel if there is one. On any other frame (a control
    response, a publish response, or a frame of neither kind) an iteration
    that completes leaves the state of the extensions as it was: the inbound
    list did not run. [Handshake] runs the inbound list once on the first
    frame of the response it read. *)
Theorem inbound_pipeline_scope (msg : Message) (rest : list Message) (w : WS) :
  let passed := applyExtensions (InExt (TransportOpts w)) msg (extSt w) in
  (IsMetaMessage msg = false -> IsEventDelivery msg = true ->
     dispatch (msg :: rest) w =
       match gomap_lookup (subs w) (Channel msg) with
       | Some ch =>
           chan_send ch (fst passed) (set_extSt (snd passed) (advised msg w))
       | None => Done tt (set_extSt (snd passed) (advised msg w))
       end
     /\ forall r w', dispatch (msg :: rest) w = Done r w' ->
                     extSt w' = snd passed)
  /\ (IsMetaMessage msg = true \/ IsEventDelivery msg = false ->
      forall r w', dispatch (msg :: rest) w = Done r w' -> extSt w' = extSt w)
  /\ (forall r w', Handshake None (inr (msg :: rest)) w = Done r w' ->
                   extSt w' = snd (hsResponse w msg)).
Proof.
  intros passed. split; [|split].
  - intros Hmeta Hdel.
    pose proof (dispatch_delivery msg rest w Hmeta Hdel) as E.
    cbv zeta in E. fold passed in E. split; [exact E|].
    intros r w' H. rewrite E in H.
    destruct (gomap_lookup (subs w) (Channel msg)) as [ch|].
    + apply chan_send_extSt in H. rewrite H. reflexivity.
    + apply Done_state in H. subst w'. reflexivity.
  - intros Hkind r w' H. eapply dispatch_other_extSt; eauto.
  - intros r w' H. rewrite Handshake_read in H. simpl in H.
    destruct (GetError _); apply Done_state in H; subst w'; reflexivity.
Qed.

End Properties.

(** * Further properties of the code *)

Section Coverage.

Context {ExtSt : Type}.
Variable IsEventDelivery : Message -> bool.
Variable IsEventPublish : Message -> bool.

Abbreviation WS := (@Websocket ExtSt).
Abbreviation dispatch := (dispatch IsEventDelivery IsEventPublish).
Abbreviation readWorker := (readWorker IsEventDelivery IsEventPublish).

(** ** The consuming loop of [Subscribe] and [Subscription.OnMessage] *)

(** Frames without error at the head of the mailbox go to the handler, and
    the loop carries on with what follows them. *)
Lemma consume_clean_prefix (q1 q2 : list Message) (isClosed : bool) :
  Forall (fun m => GetError m = None) q1 ->
  consume (q1 ++ q2) isClosed =
    (map Data_ q1 ++ fst (consume q2 isClosed), snd (consume q2 isClosed)).
Proof.
  induction 1 as [|m q1 Hm Hq IH]; simpl.
  - now destruct (consume q2 isClosed).
  - rewrite Hm, IH. reflexivity.
Qed.

(** X1. When no frame of the mailbox carries an error, the handler is called
    with the payload of every frame, in the order the frames were handed
    over; the loop then returns nil if the mailbox was closed and goes on
    waiting if it was not. *)
Theorem consume_all_payloads (q : list Message) (isClosed : bool) :
  Forall (fun m => GetError m = None) q ->
  consume q isClosed =
    (map Data_ q, if isClosed then Returns None else Waits).
Proof.
  intros Hq. rewrite <- (app_nil_r q) at 1.
  rewrite (consume_clean_prefix q [] isClosed Hq). simpl.
  now rewrite app_nil_r.
Qed.

(** X2. The loop returns at the first frame that carries an error, with that
    error: the handler got the payloads of the frames before it and of none
    after it, whether or not the mailbox was closed. *)
Theorem consume_stops_at_first_error (q1 q2 : list Message) (m : Message)
  (e : error) (isClosed : bool) :
  Forall (fun m => GetError m = None) q1 ->
  GetError m = Some e ->
  consume (q1 ++ m :: q2) isClosed = (map Data_ q1, Returns (Some e)).
Proof.
  intros H1 Hm. rewrite (consume_clean_prefix q1 (m :: q2) isClosed H1).
  simpl. rewrite Hm. simpl. now rewrite app_nil_r.
Qed.

(** ** [Subscribe]: the request and the registration *)

(** X3. When the subscribe request was written and the registry is not the
    nil map, [Subscribe] registers a mailbox of its own under the channel: a
    new one, empty and open. The mailboxes that existed and the entries of
    the other channels are as before. *)
Theorem Subscribe_registers_fresh_mailbox (subscription : string) (w : WS)
  (t : gmap string ChanRef) :
  subs w = Some t ->
  exists w',
    Subscribe_register subscription None w = Done (inr (length (chans w))) w'
    /\ gomap_lookup (subs w') subscription = Some (length (chans w))
    /\ chans w' !! length (chans w) = Some (mkMailbox [] false)
    /\ (forall ch mb, chans w !! ch = Some mb -> chans w' !! ch = Some mb)
    /\ (forall k, k <> subscription ->
          gomap_lookup (subs w') k = gomap_lookup (subs w) k).
Proof.
  intros Ht. unfold Subscribe_register, subs_store, make_chan. run.
  rewrite sendMessage_eq. simpl. rewrite ?(subs_afterSend _ None), Ht. simpl.
  eexists. split; [unfold afterSend; simpl; reflexivity|]. simpl.
  unfold afterSend. simpl. repeat split.
  - apply lookup_insert_eq.
  - rewrite lookup_app_r by lia. rewrite Nat.sub_diag. reflexivity.
  - intros ch mb Hch. rewrite lookup_app_l; [assumption|].
    eapply lookup_lt_Some; eauto.
  - intros k Hk. rewrite ?Ht. simpl. apply lookup_insert_ne. congruence.
Qed.

(** X4. When the write of the subscribe request fails, [Subscribe] returns
    that error at once: no mailbox is made and the registry is as before,
    though the request took an id from the counter. *)
Theorem Subscribe_send_failure (subscription : string) (e : error) (w : WS) :
  exists w',
    Subscribe_register subscription (Some e) w = Done (inl e) w'
    /\ subs w' = subs w /\ chans w' = chans w /\ wire w' = wire w
    /\ msgID w' = wrap64 (msgID w + 1).
Proof.
  unfold Subscribe_register. run. rewrite sendMessage_eq. simpl.
  eexists. split; [reflexivity|]. unfold afterSend. simpl. repeat split.
Qed.

(** ** [Publish] *)

(** X20. [Publish] takes an id from the counter whether or not the write
    succeeds. It returns that id with a nil error when the frame was written,
    and the empty id with the error of the write when it was not; the id
    taken is then lost. The registry, the mailboxes and the client id are
    untouched. *)
Theorem Publish_result (subscription : string) (data : Data)
  (wr : option error) (w : WS) :
  exists w',
    Publish subscription data wr w =
      Done (match wr with
            | None => (nextID w, None)
            | Some e => ("", Some e)
            end) w'
    /\ msgID w' = wrap64 (msgID w + 1)
    /\ subs w' = subs w /\ chans w' = chans w /\ clientID w' = clientID w.
Proof.
  unfold Publish. run. fold (nextID w). rewrite sendMessage_eq.
  destruct wr as [e|]; simpl; eexists; (split; [reflexivity|]);
    unfold afterSend; simpl; repeat split.
Qed.

(** ** [Handshake], [Connect], [Disconnect], [Init] *)

(** X23. [Handshake] takes no id from the counter, and it leaves the
    registry, the mailboxes, the stop channel and the count of workers as
    they were, whatever it returns. *)
Theorem Handshake_keeps_counter (wr : option error) (rd : ReadResult)
  (w w' : WS) (r : option error) :
  Handshake wr rd w = Done r w' ->
  msgID w' = msgID w /\ subs w' = subs w /\ chans w' = chans w
  /\ stopCh w' = stopCh w /\ workers w' = workers w.
Proof.
  unfold Handshake. run. rewrite sendMessage_eq. intros H.
  destruct wr as [e|]; simpl in H.
  - apply Done_state in H. subst w'. unfold afterSend. simpl. repeat split.
  - destruct rd as [e|[|resp0 rest]]; simpl in H; try discriminate.
    + apply Done_state in H. subst w'. unfold afterSend. simpl. repeat split.
    + destruct (applyExtensions (InExt _) resp0 _) as [resp s2]. simpl in H.
      destruct (GetError resp); apply Done_state in H; subst w';
        unfold afterSend; simpl; repeat split.
Qed.


(** X25. [Connect] starts a read worker before it sends: the worker is
    started also when the write of the connect frame fails, and [Connect]
    returns what the write returned. Each call starts one more worker and
    takes one id. *)
Theorem Connect_starts_worker (wr : option error) (w : WS) :
  exists w',
    Connect wr w = Done wr w'
    /\ workers w' = S (workers w)
    /\ msgID w' = wrap64 (msgID w + 1)
    /\ subs w' = subs w /\ chans w' = chans w /\ stopCh w' = stopCh w.
Proof.
  unfold Connect. run. rewrite sendMessage_eq.
  eexists. split; [reflexivity|].
  unfold afterSend. destruct wr; simpl; repeat split.
Qed.

(** X18. Once [Disconnect] completed, the stop channel is closed: a read
    worker returns nil at its next iteration without touching any frame that
    is still to be read, and a second [Disconnect] panics on the closed
    channel. *)
Theorem after_Disconnect (taken : bool) (wr : option error) (w w' : WS)
  (r : option error) :
  Disconnect taken wr w = Done r w' ->
  r = wr
  /\ (forall evs, readWorker evs w' = Done (Returned None) w')
  /\ (forall taken' wr',
        Disconnect taken' wr' w' = Panicked SendOnClosedChannel).
Proof.
  unfold Disconnect at 1. run. intros H.
  destruct (stopCh w) eqn:Hs; simpl in H; [discriminate|].
  destruct taken; simpl in H; [|discriminate].
  rewrite sendMessage_eq in H.
  destruct (Done_inv _ _ _ _ H) as [<- <-].
  assert (stopCh (afterSend
            (disconnectFrame (clientID w)
               (Itoa (to_int (wrap64 (msgID w + 1)))))
            wr (set_stopCh true (set_msgID (wrap64 (msgID w + 1)) w))) = true)
    as Hc by (unfold afterSend; destruct wr; reflexivity).
  split; [reflexivity|]. split.
  - intros [|ev evs].
    + simpl. unfold bind, gets, ret. rewrite Hc. reflexivity.
    + rewrite readWorker_cons, Hc. reflexivity.
  - intros taken' wr'. unfold Disconnect. run. rewrite Hc. reflexivity.
Qed.

(** X26. [Init] returns what the dial returned, and it resets the receiver
    before it dials: also when the dial fails the options are the new ones,
    the counter is zero, the subscription registry is empty and the stop
    channel is a new one. The client id of an earlier handshake, the
    publish-response registry and the stored advice are kept. *)
Theorem Init_resets (options : Options) (dial : option error) (w : WS) :
  exists w',
    Init options dial w = Done dial w'
    /\ TransportOpts w' = options /\ msgID w' = 0 /\ subs w' = Some ∅
    /\ stopCh w' = false /\ wire w' = []
    /\ clientID w' = clientID w
    /\ onPublishResponse w' = onPublishResponse w
    /\ advice w' = advice w.
Proof.
  destruct dial; eexists; (split; [reflexivity|]); repeat split.
Qed.

(** ** The read loop over several frames *)

(** X6. The worker has no memory between iterations beyond the receiver: if
    it stands waiting for a frame after some events, what it does on further
    events is what a worker started on the receiver it left would do. *)
Theorem readWorker_app (evs1 evs2 : list LoopEvent) (w w' : WS) :
  readWorker evs1 w = Done AwaitingFrame w' ->
  readWorker (evs1 ++ evs2) w = readWorker evs2 w'.
Proof.
  revert w. induction evs1 as [|ev evs1 IH]; intros w H.
  - simpl in H. unfold bind, gets, ret in H.
    destruct (stopCh w); [discriminate|].
    apply Done_state in H. subst w'. reflexivity.
  - rewrite <- app_comm_cons. rewrite readWorker_cons in *.
    destruct (stopCh w); [discriminate|].
    destruct ev as [err|[err|payload]]; try discriminate.
    destruct (dispatch payload w) as [r w1| |] eqn:E;
      try discriminate.
    now apply IH.
Qed.

Lemma advised_fields (msg : Message) (w : WS) :
  chans (advised msg w) = chans w /\ subs (advised msg w) = subs w
  /\ stopCh (advised msg w) = stopCh w
  /\ TransportOpts (advised msg w) = TransportOpts w
  /\ extSt (advised msg w) = extSt w
  /\ onPublishResponse (advised msg w) = onPublishResponse w.
Proof. unfold advised. destruct (Advice msg); repeat split. Qed.

(** One delivery to a registered, open mailbox. *)
Lemma delivery_step (m : Message) (rest : list Message) (ch : ChanRef)
  (mb : Mailbox) (w : WS) :
  IsMetaMessage m = false ->
  IsEventDelivery m = true ->
  gomap_lookup (subs w) (Channel m) = Some ch ->
  chans w !! ch = Some mb ->
  closed mb = false ->
  dispatch (m :: rest) w =
    Done tt
      (set_chans
         (<[ch := mkMailbox
                    (queue mb ++
                       [fst (applyExtensions (InExt (TransportOpts w)) m
                               (extSt w))])
                    false]> (chans w))
         (set_extSt
            (snd (applyExtensions (InExt (TransportOpts w)) m (extSt w)))
            (advised m w))).
Proof.
  intros Hmeta Hdel Hsub Hmb Hopen.
  rewrite (dispatch_delivery IsEventDelivery IsEventPublish m rest w Hmeta Hdel).
  cbv zeta. rewrite Hsub. unfold chan_send. simpl.
  destruct (advised_fields m w) as (Hc & _). rewrite Hc, Hmb, Hopen.
  reflexivity.
Qed.

(** Deliveries for one channel, one per iteration: the receiver the worker
    leaves differs in the mailbox of the channel, and in the state of the
    extensions and the advice. *)
Lemma deliveries_run (msgs : list Message) (c : string) (ch : ChanRef)
  (mb : Mailbox) (w : WS) :
  stopCh w = false ->
  Forall (fun m => IsMetaMessage m = false /\ IsEventDelivery m = true
                   /\ Channel m = c) msgs ->
  gomap_lookup (subs w) c = Some ch ->
  chans w !! ch = Some mb ->
  closed mb = false ->
  exists w',
    readWorker (framesRead msgs) w = Done AwaitingFrame w'
    /\ chans w' =
         <[ch := mkMailbox
                   (queue mb ++
                      fst (passIn (InExt (TransportOpts w)) msgs (extSt w)))
                   false]> (chans w)
    /\ extSt w' = snd (passIn (InExt (TransportOpts w)) msgs (extSt w))
    /\ subs w' = subs w.
Proof.
  intros Hstop Hall. revert w mb Hstop.
  induction Hall as [|m msgs (Hmeta & Hdel & Hc) _ IH];
    intros w mb Hstop Hsub Hmb Hopen.
  - exists w. simpl. unfold bind, gets, ret. rewrite Hstop.
    rewrite app_nil_r. destruct mb as [q cl]. simpl in *. subst cl.
    repeat split; auto. symmetry. now apply list_insert_id.
  - unfold framesRead. rewrite map_cons, readWorker_cons, Hstop.
    rewrite <- Hc in Hsub.
    rewrite (delivery_step m [] ch mb w Hmeta Hdel Hsub Hmb Hopen).
    destruct (advised_fields m w) as (Hch & Hsu & Hst & Hop & _).
    assert (ch < length (chans w))%nat as Hlt
      by (eapply lookup_lt_Some; eauto).
    simpl passIn.
    destruct (applyExtensions (InExt (TransportOpts w)) m (extSt w))
      as [m' s'] eqn:E. simpl fst. simpl snd.
    set (w1 := set_chans _ _).
    destruct (IH w1 (mkMailbox (queue mb ++ [m']) false))
      as (w' & Hrun & Hq & He & Hs).
    + subst w1. simpl. congruence.
    + subst w1. simpl. rewrite Hsu. rewrite <- Hc. assumption.
    + subst w1. simpl. now apply list_lookup_insert_eq.
    + reflexivity.
    + exists w'. fold (framesRead msgs). rewrite Hrun.
      assert (TransportOpts w1 = TransportOpts w) as Ho
        by (subst w1; simpl; assumption).
      assert (extSt w1 = s') as Hs1 by (subst w1; reflexivity).
      rewrite Ho, Hs1 in Hq, He.
      destruct (passIn (InExt (TransportOpts w)) msgs s') as [ms' s''].
      simpl in *. rewrite <- app_assoc in Hq. simpl in Hq.
      repeat split; auto.
      * rewrite Hq. subst w1. simpl. apply list_insert_insert_eq.
      * rewrite Hs. subst w1. simpl. assumption.
Qed.


Lemma passIn_nil (msgs : list Message) (s : ExtSt) :
  passIn [] msgs s = (msgs, s).
Proof.
  induction msgs as [|m msgs IH]; [reflexivity|].
  simpl. rewrite IH. reflexivity.
Qed.

(** X8. With no inbound extension registered, after [Subscribe] registered
    its mailbox and the loop read deliveries for the channel, none of which
    carries an error, the handler was called once per frame with the payloads
    in the order the server sent them, and [Subscribe] is still waiting. *)
Theorem Subscribe_receives_in_order (msgs : list Message) (c : string)
  (ch : ChanRef) (w : WS) :
  stopCh w = false ->
  InExt (TransportOpts w) = [] ->
  Forall (fun m => IsMetaMessage m = false /\ IsEventDelivery m = true
                   /\ Channel m = c) msgs ->
  Forall (fun m => GetError m = None) msgs ->
  gomap_lookup (subs w) c = Some ch ->
  chans w !! ch = Some (mkMailbox [] false) ->
  exists w' mb',
    readWorker (framesRead msgs) w = Done AwaitingFrame w'
    /\ chans w' !! ch = Some mb'
    /\ consume_mailbox mb' = (map Data_ msgs, Waits).
Proof.
  intros Hstop Hin Hall Herr Hsub Hmb.
  destruct (deliveries_run msgs c ch (mkMailbox [] false) w
              Hstop Hall Hsub Hmb eq_refl) as (w' & Hrun & Hq & _).
  rewrite Hin, passIn_nil in Hq. simpl in Hq.
  exists w', (mkMailbox msgs false). rewrite Hq. repeat split; auto.
  - apply list_lookup_insert_eq. eapply lookup_lt_Some; eauto.
  - unfold consume_mailbox. simpl.
    rewrite <- (app_nil_r msgs) at 1.
    rewrite (consume_clean_prefix msgs [] false Herr). simpl.
    now rewrite app_nil_r.
Qed.

(** ** One iteration, by kind of frame *)

(** X13. A control frame other than a failed subscribe response (a
    successful subscribe response, or a response on the unsubscribe, connect,
    disconnect or handshake channel) only has its advice stored: nothing else
    of the receiver changes and the loop goes on. *)
Theorem control_frame_inert (msg : Message) (rest : list Message) (w : WS) :
  IsMetaMessage msg = true ->
  Channel msg <> MetaSubscribe \/ Successful msg = true ->
  dispatch (msg :: rest) w = Done tt (advised msg w).
Proof.
  intros Hmeta Hkind. run_dispatch. unfold advised. rewrite Hmeta.
  destruct (String.eqb_spec (Channel msg) MetaSubscribe) as [Heq|Hne].
  - destruct Hkind as [Hk|Hk]; [congruence|]. rewrite Hk. simpl.
    destruct (Advice msg); reflexivity.
  - destruct (Advice msg); simpl; repeat case_match; reflexivity.
Qed.

(** X14. A frame classified as a publish response, and not as a delivery, is
    handed unchanged and once to the callback registered for its channel;
    when none is registered, or the registry is the nil map, the frame is
    dropped without a trace. Apart from the advice nothing else changes. *)
Theorem publish_response_routed (msg : Message) (rest : list Message)
  (w : WS) :
  IsMetaMessage msg = false ->
  IsEventDelivery msg = false ->
  IsEventPublish msg = true ->
  dispatch (msg :: rest) w =
    Done tt
      match gomap_lookup (onPublishResponse w) (Channel msg) with
      | Some onPublish =>
          set_called (called w ++ [(onPublish, msg)]) (advised msg w)
      | None => advised msg w
      end.
Proof.
  intros Hmeta Hdel Hpub. run_dispatch. unfold advised.
  rewrite Hmeta, Hdel, Hpub.
  destruct (Advice msg); simpl;
    destruct (gomap_lookup (onPublishResponse w) (Channel msg)); reflexivity.
Qed.

(** X12. Whatever the kind of the frame, an iteration that completes leaves
    as stored advice the advice of the frame when it has one, and the advice
    stored before when it has none. *)
Theorem advice_overwritten (msg : Message) (rest : list Message) (w w' : WS)
  (r : unit) :
  dispatch (msg :: rest) w = Done r w' ->
  advice w' = match Advice msg with
              | Some a => Some a
              | None => advice w
              end.
Proof.
  intros H. run_dispatch.
  repeat (case_match; simpl in *; simplify_eq); reflexivity.
Qed.

(** X15. On a receiver whose publish-response registry is a table, a
    callback registered for a channel replaces the one registered before and
    leaves the other channels alone; the next publish response the loop
    reads on that channel goes to it. *)
Theorem OnPublishResponse_then_response (c : string) (onMsg : Callback)
  (msg : Message) (rest : list Message) (t : gmap string Callback) (w : WS) :
  onPublishResponse w = Some t ->
  IsMetaMessage msg = false ->
  IsEventDelivery msg = false ->
  IsEventPublish msg = true ->
  Channel msg = c ->
  exists w1 w2,
    OnPublishResponse c onMsg w = Done tt w1
    /\ gomap_lookup (onPublishResponse w1) c = Some onMsg
    /\ (forall k, k <> c ->
          gomap_lookup (onPublishResponse w1) k
          = gomap_lookup (onPublishResponse w) k)
    /\ dispatch (msg :: rest) w1 = Done tt w2
    /\ called w2 = called w ++ [(onMsg, msg)].
Proof.
  intros Ht Hmeta Hdel Hpub Hc.
  exists (set_onPublishResponse (Some (<[c:=onMsg]> t)) w).
  exists (set_called (called w ++ [(onMsg, msg)])
            (advised msg (set_onPublishResponse (Some (<[c:=onMsg]> t)) w))).
  split; [unfold OnPublishResponse; run; rewrite Ht; reflexivity|].
  split; [simpl; apply lookup_insert_eq|].
  split; [intros k Hk; simpl; rewrite Ht; simpl;
          apply lookup_insert_ne; congruence|].
  run_dispatch. unfold advised. rewrite Hmeta, Hdel, Hpub, Hc.
  destruct (Advice msg); simpl; rewrite lookup_insert_eq;
    (split; reflexivity).
Qed.

(** ** Subscribe responses that signal failure *)

(** X17. When the failed subscribe response carries an error text and the
    mailbox of its subscription is open and holds no error so far, the
    consuming loop of [Subscribe] returns the error naming the subscription
    (the text the server sent is replaced), after the handler got the
    payloads that were already in the mailbox. *)
Theorem nack_error_returned (msg : Message) (rest : list Message) (w : WS)
  (ch : ChanRef) (mb : Mailbox) (e : error) :
  Channel msg = MetaSubscribe ->
  Successful msg = false ->
  GetError msg = Some e ->
  gomap_lookup (subs w) (Subscription msg) = Some ch ->
  chans w !! ch = Some mb ->
  closed mb = false ->
  Forall (fun m => GetError m = None) (queue mb) ->
  exists w' mb',
    dispatch (msg :: rest) w = Done tt w'
    /\ chans w' !! ch = Some mb'
    /\ consume_mailbox mb' =
         (map Data_ (queue mb),
          Returns (Some (subscribeFailed (Subscription msg)))).
Proof.
  intros Hch Hnack Herr Hsub Hmb Hopen Hq.
  rewrite (nack_dispatch IsEventDelivery IsEventPublish msg rest w ch mb
             Hch Hnack Hsub Hmb Hopen).
  do 2 eexists. split; [reflexivity|]. simpl.
  split; [apply list_lookup_insert_eq; eapply lookup_lt_Some; eauto|].
  unfold consume_mailbox. simpl.
  rewrite (consume_clean_prefix (queue mb) [pushedNack msg] true Hq).
  unfold pushedNack. rewrite Herr. simpl. now rewrite app_nil_r.
Qed.


(** ** What the read loop keeps *)

(** A relation between the receiver before and after that holds across every
    iteration holds across the loop. *)
Lemma readWorker_invariant (R : WS -> WS -> Prop) :
  (forall w, R w w) ->
  (forall a b c, R a b -> R b c -> R a c) ->
  (forall payload w w' r, dispatch payload w = Done r w' -> R w w') ->
  forall evs w w' r, readWorker evs w = Done r w' -> R w w'.
Proof.
  intros Hrefl Htrans Hstep evs.
  induction evs as [|ev evs IH]; intros w w' r H.
  - simpl in H. unfold bind, gets, ret in H.
    destruct (stopCh w); apply Done_state in H; subst w'; apply Hrefl.
  - rewrite readWorker_cons in H.
    destruct (stopCh w); [apply Done_state in H; subst w'; apply Hrefl|].
    destruct ev as [err|[err|payload]];
      try (apply Done_state in H; subst w'; apply Hrefl).
    destruct (dispatch payload w) as [r1 w1| |] eqn:E; try discriminate.
    eapply Htrans; [eapply Hstep; eauto|eapply IH; eauto].
Qed.

(** X9. The read worker only reads: however many frames it goes through, it
    writes nothing to the socket, takes no id from the counter, and leaves
    the client id, the options, the stop channel, the count of workers and
    the publish-response registry as they were. *)
Theorem readWorker_only_reads (evs : list LoopEvent) (w w' : WS)
  (r : LoopExit) :
  readWorker evs w = Done r w' ->
  wire w' = wire w /\ msgID w' = msgID w /\ clientID w' = clientID w
  /\ TransportOpts w' = TransportOpts w /\ stopCh w' = stopCh w
  /\ workers w' = workers w /\ onPublishResponse w' = onPublishResponse w.
Proof.
  revert evs w w' r.
  apply (readWorker_invariant
           (fun w w' =>
              wire w' = wire w /\ msgID w' = msgID w
              /\ clientID w' = clientID w
              /\ TransportOpts w' = TransportOpts w /\ stopCh w' = stopCh w
              /\ workers w' = workers w
              /\ onPublishResponse w' = onPublishResponse w)).
  - intros w. repeat split.
  - intros a b c (H1 & H2 & H3 & H4 & H5 & H6 & H7)
      (G1 & G2 & G3 & G4 & G5 & G6 & G7).
    repeat split; congruence.
  - intros payload w w' r H. run_dispatch.
    repeat (case_match; simpl in *; simplify_eq); repeat split.
Qed.

Lemma gomap_delete_lookup {V : Type} (m : GoMap V) (k k' : string) (v : V) :
  gomap_lookup (gomap_delete k m) k' = Some v -> gomap_lookup m k' = Some v.
Proof.
  destruct m as [t|]; simpl; [|discriminate].
  intros H. apply lookup_delete_Some in H. tauto.
Qed.

(** X11. The read worker never registers a subscription: every entry of the
    registry after the loop was there, with the same mailbox, before it. *)
Theorem readWorker_registry_shrinks (evs : list LoopEvent) (w w' : WS)
  (r : LoopExit) (k : string) (ch : ChanRef) :
  readWorker evs w = Done r w' ->
  gomap_lookup (subs w') k = Some ch ->
  gomap_lookup (subs w) k = Some ch.
Proof.
  intros H. revert k ch. revert evs w w' r H.
  apply (readWorker_invariant
           (fun w w' => forall k ch,
              gomap_lookup (subs w') k = Some ch ->
              gomap_lookup (subs w) k = Some ch)).
  - auto.
  - intros a b c Hab Hbc k ch Hk. auto.
  - intros payload w w' r H k ch Hk. run_dispatch.
    repeat (case_match; simpl in *; simplify_eq); auto;
      eapply gomap_delete_lookup; eauto.
Qed.

Lemma continues_same (w w' : WS) : chans w' = chans w -> continues w w'.
Proof.
  intros E. split; [now rewrite E|].
  intros ch mb H. exists mb. rewrite E. repeat split; auto.
Qed.

Lemma continues_trans (a b c : WS) :
  continues a b -> continues b c -> continues a c.
Proof.
  intros [L1 H1] [L2 H2]. split; [congruence|].
  intros ch mb H.
  destruct (H1 ch mb H) as (mb1 & E1 & P1 & C1).
  destruct (H2 ch mb1 E1) as (mb2 & E2 & P2 & C2).
  exists mb2. split; [assumption|]. split; [etrans; eauto|].
  intros Hc. specialize (C1 Hc). subst mb1. auto.
Qed.

Lemma continues_update (w w' : WS) (ch : ChanRef) (mb new : Mailbox) :
  chans w !! ch = Some mb ->
  closed mb = false ->
  queue mb `prefix_of` queue new ->
  chans w' = <[ch := new]> (chans w) ->
  continues w w'.
Proof.
  intros Hmb Hopen Hpre E.
  assert (ch < length (chans w))%nat as Hlt by (eapply lookup_lt_Some; eauto).
  split; [rewrite E; apply length_insert|].
  intros k mbk Hk. rewrite E.
  destruct (decide (k = ch)) as [Heq|Hne].
  - subst k. rewrite list_lookup_insert_eq by assumption.
    exists new.
    assert (Some mbk = Some mb) as Hx by (rewrite <- Hk; exact Hmb).
    inversion Hx; subst mbk. repeat split; auto. congruence.
  - rewrite list_lookup_insert_ne by congruence.
    exists mbk. repeat split; auto.
Qed.

Lemma chan_send_continues (ch : ChanRef) (m : Message) (w w' : WS) (r : unit) :
  chan_send ch m w = Done r w' -> continues w w'.
Proof.
  unfold chan_send. intros H.
  destruct (chans w !! ch) as [mb|] eqn:Hmb; [|discriminate].
  destruct (closed mb) eqn:Hc; [discriminate|].
  apply Done_state in H. subst w'.
  apply (continues_update w _ ch mb (mkMailbox (queue mb ++ [m]) false));
    [assumption|assumption|simpl; now apply prefix_app_r|reflexivity].
Qed.

Lemma chan_close_continues (ch : ChanRef) (w w' : WS) (r : unit) :
  chan_close ch w = Done r w' -> continues w w'.
Proof.
  unfold chan_close. intros H.
  destruct (chans w !! ch) as [mb|] eqn:Hmb; [|discriminate].
  destruct (closed mb) eqn:Hc; [discriminate|].
  apply Done_state in H. subst w'.
  apply (continues_update w _ ch mb (mkMailbox (queue mb) true));
    [assumption|assumption|reflexivity|reflexivity].
Qed.

Lemma dispatch_continues (payload : list Message) (w w' : WS) (r : unit) :
  dispatch payload w = Done r w' -> continues w w'.
Proof.
  intros H. unfold_dispatch_only H.
  repeat (case_match; simpl in *; simplify_eq);
    try (apply continues_same; reflexivity);
    match goal with
    | Hs : chan_send _ _ ?wa = Done _ ?w1,
      Hc : chan_close _ ?w1 = Done _ ?w2 |- continues ?w _ =>
        apply (continues_trans w wa); [apply continues_same; reflexivity|];
        apply (continues_trans wa w1); [eapply chan_send_continues; eauto|];
        apply (continues_trans w1 w2); [eapply chan_close_continues; eauto|];
        apply continues_same; reflexivity
    | Hs : chan_send _ _ ?wa = Done _ ?w1 |- continues ?w ?w1 =>
        apply (continues_trans w wa); [apply continues_same; reflexivity|];
        eapply chan_send_continues; eauto
    end.
Qed.

(** X10. The read worker never takes a frame back: after the loop there are
    as many mailboxes as before, each holds the frames it held, in the same
    order, with the new ones behind them, and a mailbox that was closed is
    exactly as it was. *)
Theorem readWorker_mailboxes_grow (evs : list LoopEvent) (w w' : WS)
  (r : LoopExit) (ch : ChanRef) (mb : Mailbox) :
  readWorker evs w = Done r w' ->
  chans w !! ch = Some mb ->
  length (chans w') = length (chans w)
  /\ exists mb', chans w' !! ch = Some mb'
       /\ queue mb `prefix_of` queue mb'
       /\ (closed mb = true -> mb' = mb).
Proof.
  intros H Hmb.
  assert (continues w w') as [Hlen Hall].
  { clear Hmb. revert H. revert evs w w' r.
    apply (readWorker_invariant continues).
    - intros a. now apply continues_same.
    - apply continues_trans.
    - apply dispatch_continues. }
  split; [assumption|]. now apply Hall.
Qed.

(** ** Subscribing twice *)

(** The receiver after the request of [Subscribe] was written and the
    mailbox registered. *)
Lemma Subscribe_register_eq (c : string) (t : gmap string ChanRef) (w : WS) :
  subs w = Some t ->
  exists w1,
    Subscribe_register c None w = Done (inr (length (chans w))) w1
    /\ subs w1 = Some (<[c := length (chans w)]> t)
    /\ chans w1 = chans w ++ [mkMailbox [] false]
    /\ TransportOpts w1 = TransportOpts w.
Proof.
  intros Ht. unfold Subscribe_register, subs_store, make_chan. run.
  rewrite sendMessage_eq. simpl. rewrite ?(subs_afterSend _ None), Ht. simpl.
  eexists. split; [unfold afterSend; simpl; reflexivity|].
  unfold afterSend. simpl. repeat split.
Qed.

(** X5. Subscribing again to a channel replaces its registry entry by a new
    mailbox and leaves the first mailbox in place but unregistered: the next
    delivery on the channel goes to the second mailbox, and the consumer of
    the first one gets nothing. *)
Theorem resubscribe_replaces_mailbox (c : string) (msg : Message)
  (rest : list Message) (t : gmap string ChanRef) (w : WS) :
  subs w = Some t ->
  IsMetaMessage msg = false ->
  IsEventDelivery msg = true ->
  Channel msg = c ->
  let n := length (chans w) in
  exists w1 w2 w3,
    Subscribe_register c None w = Done (inr n) w1
    /\ Subscribe_register c None w1 = Done (inr (S n)) w2
    /\ gomap_lookup (subs w2) c = Some (S n)
    /\ dispatch (msg :: rest) w2 = Done tt w3
    /\ chans w3 !! n = Some (mkMailbox [] false)
    /\ chans w3 !! S n =
         Some (mkMailbox
                 [fst (applyExtensions (InExt (TransportOpts w)) msg
                         (extSt w2))] false).
Proof.
  intros Ht Hmeta Hdel Hc n. subst n.
  destruct (Subscribe_register_eq c t w Ht) as (w1 & E1 & S1 & C1 & O1).
  destruct (Subscribe_register_eq c _ w1 S1) as (w2 & E2 & S2 & C2 & O2).
  assert (length (chans w1) = S (length (chans w))) as L1
    by (rewrite C1, length_app; simpl; lia).
  rewrite L1 in E2, S2.
  assert (chans w2 !! S (length (chans w)) = Some (mkMailbox [] false)) as M2.
  { rewrite C2, lookup_app_r by lia. rewrite L1, Nat.sub_diag. reflexivity. }
  assert (chans w2 !! length (chans w) = Some (mkMailbox [] false)) as M1.
  { rewrite C2, lookup_app_l by lia.
    rewrite C1, lookup_app_r by lia. rewrite Nat.sub_diag. reflexivity. }
  assert (gomap_lookup (subs w2) (Channel msg) = Some (S (length (chans w))))
    as Hsub by (rewrite S2, Hc; simpl; apply lookup_insert_eq).
  exists w1, w2. eexists.
  split; [exact E1|]. split; [exact E2|].
  split; [rewrite <- Hc; exact Hsub|].
  split; [exact (delivery_step msg rest _ _ w2 Hmeta Hdel Hsub M2 eq_refl)|].
  simpl. split.
  - rewrite list_lookup_insert_ne by lia. exact M1.
  - rewrite list_lookup_insert_eq by (eapply lookup_lt_Some; eauto).
    rewrite O2, O1. reflexivity.
Qed.

(** ** Ids stay distinct beyond the sign wrap *)

Lemma to_int_inj (a b : Z) :
  0 <= a < 2 ^ 64 -> 0 <= b < 2 ^ 64 -> to_int a = to_int b -> a = b.
Proof.
  unfold to_int. intros Ha Hb.
  destruct (Z.ltb_spec a (2 ^ 63)), (Z.ltb_spec b (2 ^ 63)); lia.
Qed.

(** The counter values behind the returned ids. *)
Lemma idsReturned_counters (cs : list Call) (w : WS) :
  0 <= msgID w ->
  msgID w + Z.of_nat (length cs) < 2 ^ 64 ->
  exists zs : list Z,
    idsReturned cs w = map (fun z => Itoa (to_int z)) zs
    /\ NoDup zs
    /\ Forall (fun z => msgID w < z < 2 ^ 64) zs.
Proof.
  revert w. induction cs as [|c cs IH]; intros w H0 Hb.
  - exists []. repeat split; constructor.
  - simpl in Hb |- *.
    destruct (runCall c w) as [r w'|p|] eqn:E;
      try (exists []; repeat split; constructor).
    destruct (runCall_counter c w w' r E) as [Hc Hid].
    rewrite wrap64_small in Hc by lia.
    destruct (IH w') as (zs & Hzs & Hnd & Hall); try lia.
    destruct r as [id|].
    + exists ((msgID w + 1) :: zs). rewrite Hzs. simpl.
      rewrite (Hid id eq_refl). unfold nextID.
      rewrite wrap64_small by lia.
      repeat split.
      * constructor; [|assumption].
        intros Hin. rewrite Forall_forall in Hall.
        specialize (Hall _ Hin). lia.
      * constructor; [lia|].
        eapply Forall_impl; [exact Hall|]. simpl. intros z Hz. lia.
    + exists zs. repeat split; auto.
      eapply Forall_impl; [exact Hall|]. simpl. intros z Hz. lia.
Qed.

(** X19. As long as the counter does not run through all of its 64 bits,
    the ids that the successful publishes of a sequence of calls return are
    pairwise distinct, also past [2^63] where they turn negative. *)
Theorem publish_ids_distinct (cs : list Call) (w : WS) :
  0 <= msgID w ->
  msgID w + Z.of_nat (length cs) < 2 ^ 64 ->
  NoDup (idsReturned cs w).
Proof.
  intros H0 Hb.
  destruct (idsReturned_counters cs w H0 Hb) as (zs & Hzs & Hnd & Hall).
  rewrite Hzs. apply NoDup_fmap_2_strong; [|assumption].
  intros a b Ha Hb' Hab. rewrite Forall_forall in Hall.
  apply pretty_Z_inj in Hab.
  apply to_int_inj; auto; [specialize (Hall a Ha)|specialize (Hall b Hb')];
    lia.
Qed.

(** ** Deliveries at the edges *)

(** X21. A delivery for a channel whose registered mailbox was closed (the
    entry a failed subscribe response leaves behind) makes the worker panic
    on the send, after the inbound extensions ran. *)
Theorem delivery_to_closed_mailbox_panics (msg : Message)
  (rest : list Message) (evs : list LoopEvent) (ch : ChanRef) (mb : Mailbox)
  (w : WS) :
  stopCh w = false ->
  IsMetaMessage msg = false ->
  IsEventDelivery msg = true ->
  gomap_lookup (subs w) (Channel msg) = Some ch ->
  chans w !! ch = Some mb ->
  closed mb = true ->
  readWorker (Read (inr (msg :: rest)) :: evs) w = Panicked SendOnClosedChannel.
Proof.
  intros Hstop Hmeta Hdel Hsub Hmb Hcl.
  rewrite readWorker_cons, Hstop.
  rewrite (dispatch_delivery IsEventDelivery IsEventPublish msg rest w
             Hmeta Hdel).
  cbv zeta. rewrite Hsub. unfold chan_send. simpl.
  destruct (advised_fields msg w) as (Hc & _). rewrite Hc, Hmb, Hcl.
  reflexivity.
Qed.


(** ** The extension lists *)


End Coverage.

(** ** The transport registry *)

(** X28. A transport registered under its name is the one [GetTransport]
    returns for that name, also when another transport was registered under
    the same name before; the other names answer as before, and a name never
    registered answers nil. *)
Theorem registry_round_trip {T : Type} (Name : T -> string) (t : T)
  (reg : gmap string T) :
  TransportRegistry.GetTransport (Name t)
    (TransportRegistry.RegisterTransport Name t reg) = Some t
  /\ (forall name, name <> Name t ->
        TransportRegistry.GetTransport name
          (TransportRegistry.RegisterTransport Name t reg)
        = TransportRegistry.GetTransport name reg)
  /\ (forall name,
        TransportRegistry.GetTransport name
          (TransportRegistry.registeredTransports (T := T)) = None).
Proof.
  unfold TransportRegistry.GetTransport, TransportRegistry.RegisterTransport,
    TransportRegistry.registeredTransports.
  split; [apply lookup_insert_eq|].
  split; [intros name Hne; apply lookup_insert_ne; congruence|].
  intros name. apply lookup_empty.
Qed.

(** ** The facade *)


(** * Concrete runs *)

(** ** C1 *)

(** C1, at the failing input. A consumer subscribed to [/unauthorized], and
    the server answers with a subscribe response that signals failure without
    an error text. The loop pushes the frame as it came, so the consuming
    loop of [Subscribe] finds no error in it: it calls [onMessage] with the
    nil payload and returns nil when the mailbox closes. The registry entry
    of [/unauthorized] is still there afterwards, pointing to the closed
    mailbox; a later delivery on that channel makes the worker panic. *)
Theorem nack_without_error_text :
  let msg := nack "/unauthorized" "" in
  let w := subscribedTo "/unauthorized" in
  exists w',
    readWorker withPayload withoutPayload [Read (inr [msg])] w
      = Done AwaitingFrame w'
    /\ gomap_lookup (subs w) "/unauthorized" = Some 0%nat
    /\ chans w !! 0%nat = Some (mkMailbox [] false)
    /\ chans w' !! 0%nat = Some (mkMailbox [msg] true)
    /\ consume_mailbox (mkMailbox [msg] true) = ([None], Returns None)
    /\ gomap_lookup (subs w') "/unauthorized" = Some 0%nat
    /\ readWorker withPayload withoutPayload
         [Read (inr [event "/unauthorized" (Some "late")])] w'
       = Panicked SendOnClosedChannel.
Proof.
  exists (stateOf
            (readWorker withPayload withoutPayload
               [Read (inr [nack "/unauthorized" ""])]
               (subscribedTo "/unauthorized")) fresh).
  repeat (split; [vm_compute; reflexivity|]).
  vm_compute. reflexivity.
Qed.

(** With an error text in the nack, the text is replaced by the one naming
    the subscription and the consumer returns it; the entry stays all the
    same. *)
Example nack_with_error_text :
  let msg := nack "/unauthorized" "403::Forbidden" in
  let w := subscribedTo "/unauthorized" in
  exists w',
    readWorker withPayload withoutPayload [Read (inr [msg])] w
      = Done AwaitingFrame w'
    /\ option_map consume_mailbox (chans w' !! 0%nat)
       = Some ([], Returns (Some "susbscription `/unauthorized` failed"))
    /\ gomap_lookup (subs w') "/unauthorized" = Some 0%nat.
Proof.
  exists (stateOf
            (readWorker withPayload withoutPayload
               [Read (inr [nack "/unauthorized" "403::Forbidden"])]
               (subscribedTo "/unauthorized")) fresh).
  repeat (split; [vm_compute; reflexivity|]).
  vm_compute. reflexivity.
Qed.

(** ** C2 *)

(** C2, counterexample. The handshake response carries no error and an empty
    client id, and [Handshake] returns nil and stores the empty id. *)
Lemma Handshake_accepts_empty_client_id :
  let resp := handshakeReply "" in
  ClientId resp = "" /\ GetError resp = None
  /\ exists w', Handshake None (inr [resp]) fresh = Done None w'
               /\ clientID w' = "".
Proof.
  split; [reflexivity|]. split; [reflexivity|].
  eexists. split; [vm_compute; reflexivity|reflexivity].
Qed.

(** A handshake whose response brings the client id ["c1"] and no error. *)
Lemma Handshake_amended_witness :
  GetError (fst (hsResponse fresh (handshakeReply "c1"))) = None
  /\ exists w', Handshake None (inr [handshakeReply "c1"]) fresh = Done None w'
               /\ clientID w' = "c1".
Proof.
  split; [reflexivity|].
  destruct (Handshake_amended fresh) as (_ & _ & H & _).
  exact (H (handshakeReply "c1") [] eq_refl).
Defined.

(** ** C4 *)

(** C4, counterexample. A connect response and a publish response go through
    an iteration of the loop each; the receiver, with the counter of the
    inbound extension in it, is as before, while one pass of the inbound
    list would have moved the counter. *)
Lemma control_frame_skips_inbound :
  let ack := event "/test" None in
  readWorker withPayload withoutPayload [Read (inr [connectAck])] fresh
    = Done AwaitingFrame fresh
  /\ (IsMetaMessage ack = false /\ withPayload ack = false
      /\ withoutPayload ack = true)
  /\ readWorker withPayload withoutPayload [Read (inr [ack])] fresh
    = Done AwaitingFrame fresh
  /\ extSt fresh = 0%nat
  /\ snd (applyExtensions (InExt (TransportOpts fresh)) connectAck
            (extSt fresh)) = 1%nat.
Proof.
  repeat split.
Qed.

(** A delivery on [/test] after [Subscribe("/test", ...)]: the inbound list
    ran once (the counter stands at 1 after the subscribe request went out)
    and the mailbox got the tagged frame. *)
Lemma inbound_pipeline_scope_witness :
  let msg := event "/test" (Some "hello world") in
  let w := subscribedTo "/test" in
  (IsMetaMessage msg = false /\ withPayload msg = true)
  /\ exists w', dispatch withPayload withoutPayload [msg] w = Done tt w'
       /\ extSt w = 1%nat /\ extSt w' = 2%nat
       /\ chans w' !! 0%nat = Some (mkMailbox [fst (tagging msg 1%nat)] false).
Proof.
  split; [split; reflexivity|].
  destruct (inbound_pipeline_scope withPayload withoutPayload
              (event "/test" (Some "hello world")) [] (subscribedTo "/test"))
    as [H _].
  destruct (H eq_refl eq_refl) as [E Hext].
  eexists. split; [exact E|].
  repeat (split; [vm_compute; reflexivity|]).
  vm_compute. reflexivity.
Defined.

(** ** C5 *)


(** A session on the fresh connection whose outbound (and inbound) extension
    tags every frame: the handshake brings the client id ["c1"], then connect,
    subscribe and publish. Each frame on the wire carries the tag once, the
    connect frame carries the client id, and the extension ran five times:
    once per frame sent and once on the handshake response. *)
Example tagged_once_on_the_wire :
  let w1 := stateOf (Handshake None (inr [handshakeReply "c1"]) fresh) fresh in
  let w2 := stateOf (Connect None w1) w1 in
  let w3 := stateOf (Subscribe_register "/test" None w2) w2 in
  let w4 := stateOf (Publish "/test" (Some "hello world") None w3) w3 in
  map (map (fun m => (Channel m, ClientId m, Id m, ConnectionType m)))
      (wire w4) =
    [ [(MetaHandshake, "", "", "+tag")];
      [(MetaConnect, "c1", "1", "websocket+tag")];
      [(MetaSubscribe, "c1", "2", "+tag")];
      [("/test", "c1", "3", "+tag")] ]
  /\ extSt w4 = 5%nat.
Proof. split; reflexivity. Qed.

(** ** C6 *)

(** C6, counterexample. On a connection that has handed out [2^63 - 2] ids,
    two publishes in a row return ["9223372036854775807"] and then
    ["-9223372036854775808"]: the conversion to [int] wraps, and the second
    id is numerically below the first. *)
Lemma publish_ids_wrap :
  let cs := [CPublish "/test" (Some "hello world") None;
             CPublish "/test" (Some "hello world") None] in
  idsReturned cs nearOverflow
    = ["9223372036854775807"; "-9223372036854775808"]
  /\ ~ exists zs : list Z,
        idsReturned cs nearOverflow = map Itoa zs /\ StronglySorted Z.lt zs.
Proof.
  split; [vm_compute; reflexivity|].
  intros (zs & E & Hs).
  assert (zs = [2 ^ 63 - 1; - 2 ^ 63]) as ->.
  { change (map Itoa [2 ^ 63 - 1; - 2 ^ 63] = map Itoa zs) in E.
    symmetry. revert E. apply (inj (map Itoa)). }
  inversion Hs as [|? ? _ Hall]; subst.
  inversion Hall as [|? ? Hlt _]; subst.
  vm_compute in Hlt. discriminate.
Qed.

(** The counter of [nearOverflow] is the one a fresh connection reaches by
    publishing: [n] publishes move the counter by [n] as long as it fits in
    64 bits. *)
Lemma counter_after_publishes {E : Type} (n : nat) (w : @Websocket E) :
  0 <= msgID w -> msgID w + Z.of_nat n < 2 ^ 64 ->
  msgID (publishes n w) = msgID w + Z.of_nat n.
Proof.
  intros H0. induction n as [|n IH]; intros Hb.
  - simpl. lia.
  - unfold publishes in *. rewrite Nat.iter_succ.
    set (w1 := Nat.iter n _ w) in *.
    assert (msgID w1 = msgID w + Z.of_nat n) as E1 by (apply IH; lia).
    unfold Publish, sendMessage. run.
    destruct (applyExtensions _ _ _) as [m' s']. simpl.
    rewrite E1. rewrite wrap64_small by lia. lia.
Qed.

Lemma nearOverflow_reached :
  exists n : nat, msgID (publishes n fresh) = msgID nearOverflow.
Proof.
  exists (Z.to_nat (2 ^ 63 - 2)).
  rewrite counter_after_publishes.
  - rewrite Z2Nat.id by lia. reflexivity.
  - simpl. lia.
  - rewrite Z2Nat.id by lia. simpl. lia.
Qed.

(** Two publishes with a subscribe in between on the fresh connection. *)
Lemma publish_ids_increasing_witness :
  let cs := [CPublish "/test" (Some "hello world") None;
             CSubscribe "/test" None;
             CPublish "/test" (Some "hello world") None] in
  (0 <= msgID fresh /\ msgID fresh + Z.of_nat (length cs) < 2 ^ 63)
  /\ idsReturned cs fresh = ["1"; "3"]
  /\ (exists zs : list Z,
        idsReturned cs fresh = map Itoa zs /\ StronglySorted Z.lt zs)
  /\ NoDup (idsReturned cs fresh).
Proof.
  split; [split; [simpl; lia|reflexivity]|].
  split; [reflexivity|].
  apply (publish_ids_increasing
           [CPublish "/test" (Some "hello world") None;
            CSubscribe "/test" None;
            CPublish "/test" (Some "hello world") None] fresh).
  - simpl. lia.
  - reflexivity.
Defined.

(** ** C9 *)

(** A nack for a channel nobody subscribed to, on the fresh connection. *)
Lemma nack_without_mailbox_panics_witness :
  let msg := nack "/unauthorized" "403::Forbidden" in
  (stopCh fresh = false /\ Channel msg = MetaSubscribe
   /\ Successful msg = false
   /\ gomap_lookup (subs fresh) (Subscription msg) = None)
  /\ readWorker withPayload withoutPayload
       [Read (inr [msg]); Read (inr [connectAck])] fresh
     = Panicked
         (PanicMsg "BUG: subscription not registered `/unauthorized`").
Proof.
  split; [repeat split|].
  exact (nack_without_mailbox_panics withPayload withoutPayload
           (nack "/unauthorized" "403::Forbidden") [] [Read (inr [connectAck])]
           fresh eq_refl eq_refl eq_refl eq_refl).
Defined.

(** ** Runs of the further properties *)

(** Two frames without error in a closed mailbox. *)
Lemma consume_all_payloads_witness :
  consume [hello; event "/test" (Some "bye")] true
  = ([Some "hello world"; Some "bye"], Returns None).
Proof.
  apply (consume_all_payloads [hello; event "/test" (Some "bye")] true).
  repeat constructor.
Defined.

(** A nack between two deliveries: the second delivery is never handled. *)
Lemma consume_stops_at_first_error_witness :
  consume ([hello] ++ nack "/test" "denied" :: [hello]) false
  = ([Some "hello world"], Returns (Some "denied")).
Proof.
  apply (consume_stops_at_first_error [hello] [hello] (nack "/test" "denied")
           "denied" false).
  - repeat constructor.
  - reflexivity.
Defined.

(** The first subscription on the fresh connection gets mailbox 0. *)
Lemma Subscribe_registers_fresh_mailbox_witness :
  exists w',
    Subscribe_register "/test" None fresh = Done (inr (length (chans fresh))) w'
    /\ gomap_lookup (subs w') "/test" = Some (length (chans fresh))
    /\ chans w' !! length (chans fresh) = Some (mkMailbox [] false)
    /\ (forall ch mb, chans fresh !! ch = Some mb -> chans w' !! ch = Some mb)
    /\ (forall k, k <> "/test" ->
          gomap_lookup (subs w') k = gomap_lookup (subs fresh) k).
Proof.
  exact (Subscribe_registers_fresh_mailbox "/test" fresh ∅ eq_refl).
Defined.

(** Subscribing twice to [/test] on the fresh connection, then a delivery. *)
Lemma resubscribe_replaces_mailbox_witness :
  exists w1 w2 w3,
    Subscribe_register "/test" None fresh = Done (inr 0%nat) w1
    /\ Subscribe_register "/test" None w1 = Done (inr 1%nat) w2
    /\ gomap_lookup (subs w2) "/test" = Some 1%nat
    /\ dispatch withPayload withoutPayload [hello] w2 = Done tt w3
    /\ chans w3 !! 0%nat = Some (mkMailbox [] false)
    /\ chans w3 !! 1%nat =
         Some (mkMailbox
                 [fst (applyExtensions (InExt (TransportOpts fresh)) hello
                         (extSt w2))] false).
Proof.
  exact (resubscribe_replaces_mailbox withPayload withoutPayload "/test" hello
           [] ∅ fresh eq_refl eq_refl eq_refl eq_refl).
Defined.

(** Two connect responses, read in one go or in two. *)
Lemma readWorker_app_witness :
  readWorker withPayload withoutPayload
    ([Read (inr [connectAck])] ++ [Read (inr [connectAck])]) fresh
  = readWorker withPayload withoutPayload [Read (inr [connectAck])] fresh.
Proof.
  exact (readWorker_app withPayload withoutPayload [Read (inr [connectAck])]
           [Read (inr [connectAck])] fresh fresh eq_refl).
Defined.


(** Ten times ["hello world"] on [/test], as the test of the repository
    sends them. *)
Lemma Subscribe_receives_in_order_witness :
  exists w' mb',
    readWorker withPayload withoutPayload (framesRead (replicate 10 hello))
      plainSubscribed = Done AwaitingFrame w'
    /\ chans w' !! 0%nat = Some mb'
    /\ consume_mailbox mb' = (replicate 10 (Some "hello world"), Waits).
Proof.
  apply (Subscribe_receives_in_order withPayload withoutPayload
           (replicate 10 hello) "/test" 0%nat plainSubscribed);
    try reflexivity; repeat constructor.
Defined.

(** A delivery read after [Subscribe("/test", ...)]. *)
Lemma readWorker_only_reads_witness :
  let w := subscribedTo "/test" in
  let w' := stateOf (readWorker withPayload withoutPayload
                       [Read (inr [hello])] w) w in
  wire w' = wire w /\ msgID w' = msgID w /\ clientID w' = clientID w
  /\ TransportOpts w' = TransportOpts w /\ stopCh w' = stopCh w
  /\ workers w' = workers w /\ onPublishResponse w' = onPublishResponse w.
Proof.
  apply (readWorker_only_reads withPayload withoutPayload
           [Read (inr [hello])] (subscribedTo "/test")
           (stateOf (readWorker withPayload withoutPayload
                       [Read (inr [hello])] (subscribedTo "/test"))
                    (subscribedTo "/test"))
           AwaitingFrame).
  vm_compute. reflexivity.
Defined.

Lemma readWorker_registry_shrinks_witness :
  gomap_lookup (subs (subscribedTo "/unauthorized")) "/unauthorized"
  = Some 0%nat.
Proof.
  apply (readWorker_registry_shrinks withPayload withoutPayload
           [Read (inr [nack "/unauthorized" "403::Forbidden"])]
           (subscribedTo "/unauthorized") nacked AwaitingFrame
           "/unauthorized" 0%nat); vm_compute; reflexivity.
Defined.

Lemma readWorker_mailboxes_grow_witness :
  length (chans nacked) = length (chans (subscribedTo "/unauthorized"))
  /\ exists mb', chans nacked !! 0%nat = Some mb'
       /\ queue (mkMailbox [] false) `prefix_of` queue mb'
       /\ (closed (mkMailbox [] false) = true -> mb' = mkMailbox [] false).
Proof.
  apply (readWorker_mailboxes_grow withPayload withoutPayload
           [Read (inr [nack "/unauthorized" "403::Forbidden"])]
           (subscribedTo "/unauthorized") nacked AwaitingFrame 0%nat
           (mkMailbox [] false)); vm_compute; reflexivity.
Defined.

(** A connect response with advice on the fresh connection. *)
Lemma advice_overwritten_witness :
  advice (stateOf (dispatch withPayload withoutPayload [connectAckAdvice]
                     fresh) fresh)
  = Some (mkAdvise "retry" 60000 0).
Proof.
  exact (advice_overwritten withPayload withoutPayload connectAckAdvice []
           fresh _ tt eq_refl).
Defined.

Lemma control_frame_inert_witness :
  dispatch withPayload withoutPayload [connectAckAdvice] fresh
  = Done tt (advised connectAckAdvice fresh).
Proof.
  apply (control_frame_inert withPayload withoutPayload connectAckAdvice []
           fresh); [reflexivity|left; discriminate].
Defined.

(** A publish response on [/test] with the callback 7 registered. *)
Lemma publish_response_routed_witness :
  let w := set_onPublishResponse (Some {["/test" := 7%nat]}) fresh in
  dispatch withPayload withoutPayload [event "/test" None] w
  = Done tt (set_called [(7%nat, event "/test" None)] w).
Proof.
  exact (publish_response_routed withPayload withoutPayload
           (event "/test" None) []
           (set_onPublishResponse (Some {["/test" := 7%nat]}) fresh)
           eq_refl eq_refl eq_refl).
Defined.

Lemma OnPublishResponse_then_response_witness :
  exists w1 w2,
    OnPublishResponse "/test" 7%nat withCallbacks = Done tt w1
    /\ gomap_lookup (onPublishResponse w1) "/test" = Some 7%nat
    /\ (forall k, k <> "/test" ->
          gomap_lookup (onPublishResponse w1) k
          = gomap_lookup (onPublishResponse withCallbacks) k)
    /\ dispatch withPayload withoutPayload [event "/test" None] w1 = Done tt w2
    /\ called w2 = called withCallbacks ++ [(7%nat, event "/test" None)].
Proof.
  exact (OnPublishResponse_then_response withPayload withoutPayload "/test"
           7%nat (event "/test" None) [] ∅ withCallbacks
           eq_refl eq_refl eq_refl eq_refl eq_refl).
Defined.

(** The failed subscribe response of the test against an unauthorized
    channel. *)
Lemma nack_error_returned_witness :
  exists w' mb',
    dispatch withPayload withoutPayload
      [nack "/unauthorized" "403::Forbidden"] (subscribedTo "/unauthorized")
      = Done tt w'
    /\ chans w' !! 0%nat = Some mb'
    /\ consume_mailbox mb' =
         ([], Returns (Some "susbscription `/unauthorized` failed")).
Proof.
  apply (nack_error_returned withPayload withoutPayload
           (nack "/unauthorized" "403::Forbidden") []
           (subscribedTo "/unauthorized") 0%nat (mkMailbox [] false)
           "403::Forbidden"); try reflexivity.
  constructor.
Defined.


Lemma delivery_to_closed_mailbox_panics_witness :
  readWorker withPayload withoutPayload
    [Read (inr [event "/unauthorized" (Some "late")])] nacked
  = Panicked SendOnClosedChannel.
Proof.
  exact (delivery_to_closed_mailbox_panics withPayload withoutPayload
           (event "/unauthorized" (Some "late")) [] [] 0%nat
           (mkMailbox [nack "/unauthorized"
                         "susbscription `/unauthorized` failed"] true)
           nacked eq_refl eq_refl eq_refl eq_refl eq_refl eq_refl).
Defined.


(** [Disconnect] on the fresh connection, with a worker taking the signal. *)
Lemma after_Disconnect_witness :
  let w' := stateOf (Disconnect true None fresh) fresh in
  None = (None : option error)
  /\ (forall evs,
        readWorker withPayload withoutPayload evs w' = Done (Returned None) w')
  /\ (forall taken' wr',
        Disconnect taken' wr' w' = Panicked SendOnClosedChannel).
Proof.
  exact (after_Disconnect withPayload withoutPayload true None fresh _ None
           eq_refl).
Defined.

(** The two publishes across the sign wrap return distinct ids. *)
Lemma publish_ids_distinct_witness :
  NoDup (idsReturned [CPublish "/test" (Some "hello world") None;
                      CPublish "/test" (Some "hello world") None]
           nearOverflow).
Proof.
  apply (publish_ids_distinct
           [CPublish "/test" (Some "hello world") None;
            CPublish "/test" (Some "hello world") None] nearOverflow).
  - vm_compute. discriminate.
  - reflexivity.
Defined.

Lemma Handshake_keeps_counter_witness :
  let w' := stateOf (Handshake None (inr [handshakeReply "c1"]) fresh) fresh in
  msgID w' = msgID fresh /\ subs w' = subs fresh /\ chans w' = chans fresh
  /\ stopCh w' = stopCh fresh /\ workers w' = workers fresh.
Proof.
  exact (Handshake_keeps_counter None (inr [handshakeReply "c1"]) fresh _ None
           eq_refl).
Defined.


